(** * Annual-report harvester (reports.js): embedding and properties

    The program walks a worklist of companies, tries the BSE site, falls back
    to the NSE site, downloads every listed report, turns zip archives into
    pdf files and keeps a ledger of messages per company.

    Everything the program does to the outside (browser, network, disk,
    console) is threaded through an explicit state; everything the outside
    answers comes from a [World] of oracles.  Exceptions, [return] and
    process termination are the three outcomes of a computation. *)

From Stdlib Require Import ZArith NArith List String Ascii Bool Lia.
From stdpp Require Import base option list gmap.

Local Open Scope N_scope.

(** ** JavaScript strings

    A JavaScript string is its sequence of UTF-16 code units. *)

Abbreviation jsstring := (list N).

(** A source literal, code unit by code unit. *)
Definition js (s : string) : jsstring :=
  List.map N_of_ascii (list_ascii_of_string s).

Arguments js : simpl never.

Module JS.

(** WhiteSpace and LineTerminator code points, the set [String.prototype.trim]
    and [parseInt] strip. *)
Definition isWhiteSpace (c : N) : bool :=
  (9 <=? c) && (c <=? 13)
  || (c =? 32) || (c =? 160) || (c =? 5760)
  || (8192 <=? c) && (c <=? 8202)
  || (c =? 8232) || (c =? 8233) || (c =? 8239) || (c =? 8287)
  || (c =? 12288) || (c =? 65279).

Fixpoint trimStart (s : jsstring) : jsstring :=
  match s with
  | c :: s' => if isWhiteSpace c then trimStart s' else s
  | [] => []
  end.

Definition trimEnd (s : jsstring) : jsstring := rev (trimStart (rev s)).

Definition trim (s : jsstring) : jsstring := trimEnd (trimStart s).

(** [s.startsWith(p)] and [s.endsWith(p)]. *)
Fixpoint startsWith (p s : jsstring) : bool :=
  match p, s with
  | [], _ => true
  | a :: p', b :: s' => (a =? b) && startsWith p' s'
  | _ :: _, [] => false
  end.

Definition endsWith (p s : jsstring) : bool := startsWith (rev p) (rev s).

(** [toLowerCase] on the letters A-Z.  The program only compares its result
    with ASCII literals (symbol, company name, company, .pdf, .zip); the one
    other character that lowers to a letter of those is U+0130, which gives an
    i followed by a combining dot, so it makes no comparison succeed. *)
Definition lowerUnit (c : N) : N :=
  if (65 <=? c) && (c <=? 90) then c + 32 else c.

Definition toLowerCase (s : jsstring) : jsstring := List.map lowerUnit s.

Fixpoint eqb (a b : jsstring) : bool :=
  match a, b with
  | [], [] => true
  | x :: a', y :: b' => (x =? y) && eqb a' b'
  | _, _ => false
  end.

(** Decimal rendering of a non-negative integer, as a template literal
    prints [stats.size] or [response.statusCode]. *)
Fixpoint unitsOfUint (d : Decimal.uint) : jsstring :=
  match d with
  | Decimal.Nil => []
  | Decimal.D0 d' => 48 :: unitsOfUint d'
  | Decimal.D1 d' => 49 :: unitsOfUint d'
  | Decimal.D2 d' => 50 :: unitsOfUint d'
  | Decimal.D3 d' => 51 :: unitsOfUint d'
  | Decimal.D4 d' => 52 :: unitsOfUint d'
  | Decimal.D5 d' => 53 :: unitsOfUint d'
  | Decimal.D6 d' => 54 :: unitsOfUint d'
  | Decimal.D7 d' => 55 :: unitsOfUint d'
  | Decimal.D8 d' => 56 :: unitsOfUint d'
  | Decimal.D9 d' => 57 :: unitsOfUint d'
  end.

Definition ofNumber (n : N) : jsstring := unitsOfUint (N.to_uint n).

(** *** parseInt(s, 10)

    Leading white space is skipped, one sign is read, then the longest run
    of decimal digits; what follows the digits is ignored.  [None] is NaN.
    The value is kept exact: the program only compares it with 2009, and
    rounding to a double is monotone and leaves 2009 fixed. *)
Definition isDigit (c : N) : bool := (48 <=? c) && (c <=? 57).

Fixpoint digitsValue (acc : Z) (s : jsstring) : Z :=
  match s with
  | c :: s' =>
      if isDigit c then digitsValue (10 * acc + Z.of_N (c - 48))%Z s' else acc
  | [] => acc
  end.

Definition hasDigit (s : jsstring) : bool :=
  match s with
  | c :: _ => isDigit c
  | [] => false
  end.

Definition parseUnsigned (s : jsstring) : option Z :=
  if hasDigit s then Some (digitsValue 0%Z s) else None.

Definition parseInt (s : jsstring) : option Z :=
  match trimStart s with
  | 45 :: rest => Z.opp <$> parseUnsigned rest
  | 43 :: rest => parseUnsigned rest
  | rest => parseUnsigned rest
  end.

End JS.

(** ** File names

    The regular-expression replace followed by [trim] that both scrapers
    apply to the name they build: every code unit of the character class is
    dropped, then surrounding white space. *)

(** The nine code units of the character class: backslash, slash, colon,
    double quote, star, question mark, less-than, greater-than, bar. *)
Definition unsafeUnit (c : N) : bool :=
  (c =? 92) || (c =? 47) || (c =? 58) || (c =? 34) || (c =? 42)
  || (c =? 63) || (c =? 60) || (c =? 62) || (c =? 124).

Definition stripUnsafe (s : jsstring) : jsstring :=
  List.filter (fun c => negb (unsafeUnit c)) s.

Definition sanitize (s : jsstring) : jsstring := JS.trim (stripUnsafe s).

(** [path.join(folder, name)]; paths are opaque keys of the disk, so no
    normalisation of dot segments is modelled. *)
Definition pathJoin (folder name : jsstring) : jsstring :=
  folder ++ js "/" ++ name.

Arguments pathJoin : simpl never.

(** ** Values read from the worksheet *)

Inductive jsval : Type :=
| Undefined
| Str (s : jsstring)
| Num (z : Z)
| Boolean (b : bool).

Definition truthy (v : jsval) : bool :=
  match v with
  | Undefined => false
  | Str s => negb (JS.eqb s [])
  | Num z => negb (z =? 0)%Z
  | Boolean b => b
  end.

(** [String(v)] and the rendering of [v] inside a template literal.  Cells
    holding numbers are integers here. *)
Definition toString (v : jsval) : jsstring :=
  match v with
  | Undefined => js "undefined"
  | Str s => s
  | Num z => if (z <? 0)%Z then js "-" ++ JS.ofNumber (Z.abs_N z)
             else JS.ofNumber (Z.abs_N z)
  | Boolean true => js "true"
  | Boolean false => js "false"
  end.

(** ** Outcomes, state and the outside world *)

(** A computation returns, throws (a rejected promise, for an async function)
    or ends the process.  The payload of [Throw] is the text that
    [err.message || err] renders. *)
Inductive outcome (A : Type) : Type :=
| Return (a : A)
| Throw (e : jsstring)
| Halt (code : N).

Arguments Return {A} a.
Arguments Throw {A} e.
Arguments Halt {A} code.

(** What an outside call answers: a value, or it raises. *)
Inductive answer (A : Type) : Type :=
| Fine (a : A)
| Raises (e : jsstring).

Arguments Fine {A} a.
Arguments Raises {A} e.

(** One entry of [companyErrors]: [{ name, errors: [] }]. *)
Record info : Type := Info {
  info_name : jsval;
  errors : list jsstring;
}.

(** A file on disk; [wr_open] tells that a write stream created by the
    fetcher is still open on it. *)
Record file : Type := File {
  data : list Byte.byte;
  wr_open : bool;
}.

(** A row of the failure report: Symbol, Company Name, Error/Status Messages
    (the messages before they are joined with newlines). *)
Record reportLine : Type := ReportLine {
  Symbol : jsstring;
  CompanyName : jsval;
  Messages : list jsstring;
}.

(** Observable events, in the order they happen.  [Fetch] and [OpenArchive]
    record a call: the reference handed to [downloadFileWithSpeed] (its year
    text, url and destination) and the archive handed to AdmZip. *)
Inductive event : Type :=
| ConsoleLog (m : jsstring)
| ConsoleWarn (m : jsstring)
| ConsoleError (m : jsstring)
| Stdout (m : jsstring)
| Navigate (url : jsstring)
| Fetch (year url dest : jsstring)
| OpenArchive (path : jsstring)
| WriteReport (lines : list reportLine).

Record state : Type := State {
  companyErrors : gmap jsstring info;
  disk : gmap jsstring file;
  report : option (list reportLine);
  console : list event;
}.

Definition initial : state :=
  {| companyErrors := ∅; disk := ∅; report := None; console := [] |}.

Definition with_companyErrors (f : gmap jsstring info → gmap jsstring info)
    (st : state) : state :=
  {| companyErrors := f (companyErrors st); disk := disk st;
     report := report st; console := console st |}.

Definition with_disk (f : gmap jsstring file → gmap jsstring file)
    (st : state) : state :=
  {| companyErrors := companyErrors st; disk := f (disk st);
     report := report st; console := console st |}.

Definition with_report (r : option (list reportLine)) (st : state) : state :=
  {| companyErrors := companyErrors st; disk := disk st;
     report := r; console := console st |}.

Definition with_event (e : event) (st : state) : state :=
  {| companyErrors := companyErrors st; disk := disk st;
     report := report st; console := console st ++ [e] |}.

(** Disk operations that the outside may refuse. *)
Inductive io_op : Type :=
| OpStat (p : jsstring)
| OpRead (p : jsstring)
| OpWriteFile (p : jsstring)
| OpUnlink (p : jsstring)
| OpRename (p q : jsstring)
| OpMkdir (p : jsstring)
| OpOpenStream (p : jsstring)
| OpStreamWrite (p : jsstring)
| OpWriteWorkbook (p : jsstring).

(** What [https.get] does for a url: the request itself errors, or a response
    arrives with a status; of a 200 response [body] is what reaches the
    stream, and [broken] the error the response emits afterwards, if any. *)
Inductive http_outcome : Type :=
| RequestFails (e : jsstring)
| Responds (status : N) (body : list Byte.byte) (broken : option jsstring).

(** An entry of an archive: [entryName] and what [getData()] gives. *)
Record zipEntry : Type := ZipEntry {
  entryName : jsstring;
  getData : answer (list Byte.byte);
}.

(** A cell of the BSE results table: its [innerText] and the [href] of its
    first anchor. *)
Record td : Type := Td {
  innerText : jsstring;
  anchor : option jsstring;
}.

(** A row of the BSE results table: its cells, or the handle can no longer be
    read (any of the awaited DOM calls on it raises). *)
Inductive bse_tr : Type :=
| Tr (cells : list td)
| Detached (e : jsstring).

(** The second results page: no link to it, the navigation raises, or it
    renders. *)
Inductive bse_pager : Type :=
| NoNextPage
| NextPageFails (e : jsstring)
| NextPage (rows : answer (list bse_tr)).

(** A row of the NSE annual-reports table: the text of its toYr cell and the
    [href] of the anchor in its fourth cell. *)
Record nse_tr : Type := NseTr {
  toYr : option jsstring;
  link : option jsstring;
}.

(** A worksheet row as [sheet_to_json] gives it: column name and cell. *)
Abbreviation sheetRow := (list (jsstring * jsval)).

(** The outside world of one run.  Each answer depends on what is asked, not
    on when: a site, a url or a path behaves the same way throughout the
    run. *)
Record World : Type := {
  dirname : jsstring;
  io_fault : io_op → option jsstring;
  https_get : jsstring → http_outcome;
  (* the bytes that arrive in each full second a transfer of the url lasts *)
  speed_ticks : jsstring → list N;
  readZip : list Byte.byte → answer (list zipEntry);
  (* BSE, by symbol *)
  bse_search : jsstring → option jsstring;
  bse_rows : jsstring → answer (list bse_tr);
  bse_next : jsstring → bse_pager;
  (* NSE, by symbol *)
  nse_newPage : jsstring → option jsstring;
  nse_panel : jsstring → option jsstring;
  nse_rows : jsstring → answer (list nse_tr);
  nse_screenshot : jsstring → answer (list Byte.byte);
  nse_close : jsstring → option jsstring;
  (* start and end of the run *)
  launch : option jsstring;
  readFile : answer (list sheetRow);
  browser_close : option jsstring;
}.

(** ** The monad of the program *)

Definition M (A : Type) : Type := state → outcome A * state.

Definition ret {A} (a : A) : M A := fun st => (Return a, st).

Definition throw {A} (e : jsstring) : M A := fun st => (Throw e, st).

Definition halt {A} (code : N) : M A := fun st => (Halt code, st).

Definition bind {A B} (m : M A) (k : A → M B) : M B :=
  fun st =>
    match m st with
    | (Return a, st') => k a st'
    | (Throw e, st') => (Throw e, st')
    | (Halt c, st') => (Halt c, st')
    end.

(** [try { m } catch (err) { h err }]: only exceptions are caught. *)
Definition try_catch {A} (m : M A) (h : jsstring → M A) : M A :=
  fun st =>
    match m st with
    | (Throw e, st') => h e st'
    | r => r
    end.

Definition emit (e : event) : M unit :=
  fun st => (Return tt, with_event e st).

(** An outside call that answers nothing: it passes or raises. *)
Definition attempt (r : option jsstring) : M unit :=
  match r with
  | Some e => throw e
  | None => ret tt
  end.

Definition expect {A} (r : answer A) : M A :=
  match r with
  | Fine a => ret a
  | Raises e => throw e
  end.

Declare Scope js_scope.
Delimit Scope js_scope with js.
Notation "x <- c1 ;; c2" := (bind c1 (fun x => c2))
  (at level 100, c1 at next level, right associativity) : js_scope.
Notation "c1 ;; c2" := (bind c1 (fun _ => c2))
  (at level 100, right associativity) : js_scope.
Local Open Scope js_scope.

(** ** The Error Ledger: companyErrors and addError *)

(** [companyErrors] is an object literal, so reading [companyErrors[symbol]]
    falls back on Object.prototype when the object has no property of that
    name of its own.  These are the names found there; each reads as a
    function (or, for __proto__, as the prototype itself): truthy, and without
    an [errors] property. *)
Definition inheritedNames : list jsstring :=
  [ js "constructor"; js "toString"; js "toLocaleString"; js "valueOf";
    js "hasOwnProperty"; js "isPrototypeOf"; js "propertyIsEnumerable";
    js "__proto__"; js "__defineGetter__"; js "__defineSetter__";
    js "__lookupGetter__"; js "__lookupSetter__" ].

Definition inherited (k : jsstring) : bool :=
  existsb (JS.eqb k) inheritedNames.

Inductive property : Type :=
| OwnEntry (i : info)
| FromPrototype
| Missing.

Definition readProperty (o : gmap jsstring info) (k : jsstring) : property :=
  match o !! k with
  | Some i => OwnEntry i
  | None => if inherited k then FromPrototype else Missing
  end.

(** The TypeError of [undefined.push(...)]. *)
Definition pushOfUndefined : jsstring :=
  js "Cannot read properties of undefined (reading 'push')".

(** [async function addError(symbol, name, message)]:
    create the entry when the read is falsy, push the message on the entry's
    [errors], print it. *)
Definition addError (symbol : jsstring) (name : jsval) (message : jsstring)
    : M unit :=
  fun st =>
    let created :=
      match readProperty (companyErrors st) symbol with
      | Missing => <[symbol := Info name []]> (companyErrors st)
      | _ => companyErrors st
      end in
    match readProperty created symbol with
    | OwnEntry i =>
        emit (ConsoleError message)
          (with_companyErrors
             (fun _ => <[symbol := Info (info_name i) (errors i ++ [message])]> created)
             st)
    | _ => (Throw pushOfUndefined, st)
    end.

Section Program.

Context (w : World).

(** ** Disk *)

Definition enoent (call p : jsstring) : jsstring :=
  js "ENOENT: no such file or directory, " ++ call ++ js " '" ++ p ++ js "'".

(** [fs.statSync(p).size] *)
Definition statSync (p : jsstring) : M N :=
  attempt (io_fault w (OpStat p)) ;;
  fun st =>
    match disk st !! p with
    | Some f => (Return (N.of_nat (length (data f))), st)
    | None => (Throw (enoent (js "stat") p), st)
    end.

(** [fs.writeFileSync(p, bytes)] *)
Definition writeFileSync (p : jsstring) (bytes : list Byte.byte) : M unit :=
  attempt (io_fault w (OpWriteFile p)) ;;
  fun st =>
    let keep := match disk st !! p with Some f => wr_open f | None => false end in
    (Return tt, with_disk (fun d => <[p := File bytes keep]> d) st).

(** [fs.unlinkSync(p)] *)
Definition unlinkSync (p : jsstring) : M unit :=
  attempt (io_fault w (OpUnlink p)) ;;
  fun st =>
    match disk st !! p with
    | Some _ => (Return tt, with_disk (fun d => delete p d) st)
    | None => (Throw (enoent (js "unlink") p), st)
    end.

(** [fs.renameSync(p, q)] *)
Definition renameSync (p q : jsstring) : M unit :=
  attempt (io_fault w (OpRename p q)) ;;
  fun st =>
    match disk st !! p with
    | Some f => (Return tt, with_disk (fun d => <[q := f]> (delete p d)) st)
    | None => (Throw (enoent (js "rename") p), st)
    end.

(** [fs.mkdirSync(p, { recursive: true })]; directories are not tracked. *)
Definition mkdirSync (p : jsstring) : M unit :=
  attempt (io_fault w (OpMkdir p)).

(** ** The Fetcher: downloadFileWithSpeed *)

(** [fs.createWriteStream(dest)]: the file is created (or truncated) and the
    stream is open on it.  When the stream cannot be opened it emits an error
    event; the fetcher puts no listener for it on [file], so Node raises it
    as an uncaught exception and the process ends. *)
Definition createWriteStream (dest : jsstring) : M unit :=
  match io_fault w (OpOpenStream dest) with
  | Some _ => halt 1
  | None => fun st => (Return tt, with_disk (fun d => <[dest := File [] true]> d) st)
  end.

(** [response.pipe(file)]: the body reaches the file; a failing write is an
    error event on [file] again. *)
Definition pipe (dest : jsstring) (body : list Byte.byte) : M unit :=
  match io_fault w (OpStreamWrite dest) with
  | Some _ => halt 1
  | None => fun st => (Return tt, with_disk (fun d => <[dest := File body true]> d) st)
  end.

(** [file.close(resolve)] *)
Definition closeStream (dest : jsstring) : M unit :=
  fun st =>
    (Return tt,
     with_disk (fun d => match d !! dest with
                         | Some f => <[dest := File (data f) false]> d
                         | None => d
                         end) st).

Definition downloadComplete : jsstring :=
  [13] ++ js "Download complete!           " ++ [10].

Definition statusMessage (url : jsstring) (status : N) : jsstring :=
  js "Failed to download '" ++ url ++ js "' (Status " ++ JS.ofNumber status ++ js ")".

(** [(speed / 1024).toFixed(2)] for a byte count: the hundredths nearest to
    the quotient, the larger one on a tie, printed with two decimals.  The
    quotient of a count below 2^53 by 1024 is exact, so no rounding comes
    before this one. *)
Definition speedInKbps (speed : N) : jsstring :=
  let n := (50 * speed + 256) / 512 in
  JS.ofNumber (n / 100) ++ js "."
    ++ JS.ofNumber ((n mod 100) / 10) ++ JS.ofNumber (n mod 10).

Definition speedLine (speed : N) : jsstring :=
  [13] ++ js "Downloading: " ++ speedInKbps speed ++ js " KB/s".

(** The callback of [setInterval(..., 1000)]: one line on stdout for every
    full second that passes before the interval is cleared. *)
Fixpoint speedInterval (ticks : list N) : M unit :=
  match ticks with
  | [] => ret tt
  | speed :: rest => emit (Stdout (speedLine speed)) ;; speedInterval rest
  end.

(** The promise of [downloadFileWithSpeed(url, dest)]: [Return] is resolve,
    [Throw] is reject.  The interval runs from the 200 response until the
    stream has finished or the response has failed. *)
Definition downloadFileWithSpeed (url dest : jsstring) : M unit :=
  createWriteStream dest ;;
  match https_get w url with
  | RequestFails e => throw e
  | Responds status body broken =>
      if negb (status =? 200) then throw (statusMessage url status)
      else
        speedInterval (speed_ticks w url) ;;
        pipe dest body ;;
        match broken with
        | Some e => throw e
        | None => emit (Stdout downloadComplete) ;; closeStream dest
        end
  end.

(** The call site of the fetcher in both scrapers: [year] is the year text of
    the reference whose [url] is downloaded. *)
Definition fetch (year url dest : jsstring) : M unit :=
  emit (Fetch year url dest) ;;
  downloadFileWithSpeed url dest.

(** ** The Archive Normalizer: extractZipToPdf *)

(** [new AdmZip(zipFilePath)] followed by [zip.getEntries()]. *)
Definition AdmZip (zipFilePath : jsstring) : M (list zipEntry) :=
  emit (OpenArchive zipFilePath) ;;
  attempt (io_fault w (OpRead zipFilePath)) ;;
  fun st =>
    match disk st !! zipFilePath with
    | Some f =>
        match readZip w (data f) with
        | Fine entries => (Return entries, st)
        | Raises e => (Throw e, st)
        end
    | None => (Throw (js "Invalid filename"), st)
    end.

(** The loop over the entries; [extracted] is the flag of the source. *)
Fixpoint extractEntries (folderPath symbol year : jsstring)
    (entries : list zipEntry) (extracted : bool) : M bool :=
  match entries with
  | [] => ret extracted
  | entry :: rest =>
      if JS.endsWith (js ".pdf") (JS.toLowerCase (entryName entry)) then
        let newPdfName := symbol ++ js "_" ++ year ++ js ".pdf" in
        let outputFilePath := pathJoin folderPath newPdfName in
        bytes <- expect (getData entry) ;;
        writeFileSync outputFilePath bytes ;;
        emit (ConsoleLog (js "Extracted PDF from ZIP and renamed: " ++ outputFilePath)) ;;
        extractEntries folderPath symbol year rest true
      else extractEntries folderPath symbol year rest extracted
  end.

Definition tooSmall (size : N) (zipFilePath : jsstring) : jsstring :=
  js "ZIP file too small (" ++ JS.ofNumber size
    ++ js " bytes), skipping extraction: " ++ zipFilePath.

Definition extractionFailed (zipFilePath err : jsstring) : jsstring :=
  js "Error extracting ZIP file " ++ zipFilePath ++ js ": " ++ err.

(** The body of the [try] of extractZipToPdf. *)
Definition extractZipToPdf_body (zipFilePath folderPath symbol year : jsstring)
    : M unit :=
  size <- statSync zipFilePath ;;
  if size <? 1024 then emit (ConsoleWarn (tooSmall size zipFilePath))
  else
    entries <- AdmZip zipFilePath ;;
    extracted <- extractEntries folderPath symbol year entries false ;;
    (if extracted then ret tt
     else emit (ConsoleWarn (js "No PDF found inside ZIP: " ++ zipFilePath))) ;;
    unlinkSync zipFilePath.

Definition extractZipToPdf (zipFilePath folderPath symbol year : jsstring)
    : M unit :=
  try_catch
    (extractZipToPdf_body zipFilePath folderPath symbol year)
    (fun err => addError symbol (Str []) (extractionFailed zipFilePath err)).

(** ** Primary source: scrapeBseReports *)

Record company : Type := Company {
  symbol : jsstring;
  name : jsval;
}.

Definition baseUrl : jsstring :=
  js "https://www.bseindia.com/corporates/HistoricalAnnualReport.aspx".

Definition tryingBse (c : company) : jsstring :=
  js "Trying BSE reports for " ++ toString (name c)
    ++ js " (" ++ symbol c ++ js ")".

Definition downloadingBse (filename : jsstring) : jsstring :=
  js "Downloading BSE report: " ++ filename ++ js "...".

Definition failedBse (filename err : jsstring) : jsstring :=
  js "Failed to download BSE report " ++ filename ++ js ": " ++ err.

Definition bseScrapingFailed (c : company) (err : jsstring) : jsstring :=
  js "BSE scraping failed for " ++ symbol c ++ js ": " ++ err.

(** [isNaN(parseInt(year, 10)) || parseInt(year, 10) < 2009] *)
Definition before2009 (year : jsstring) : bool :=
  match JS.parseInt year with
  | None => true
  | Some n => (n <? 2009)%Z
  end.

(** One turn of the loop of extractAndDownloadReports; [downloadedAny] is
    the variable of the enclosing function, [continue] returns it as it is. *)
Definition bseRow (c : company) (folder : jsstring) (row : bse_tr)
    (downloadedAny : bool) : M bool :=
  match row with
  | Detached e => throw e
  | Tr cells =>
      match cells with
      | cell0 :: cell1 :: _ =>
          let year := JS.trim (innerText cell0) in
          if before2009 year then ret downloadedAny
          else
            match anchor cell1 with
            | None => ret downloadedAny
            | Some url =>
                if negb (JS.startsWith (js "https://") url) then ret downloadedAny
                else
                  let filename :=
                    sanitize (symbol c ++ js "_" ++ year ++ js ".pdf") in
                  let filepath := pathJoin folder filename in
                  try_catch
                    (addError (symbol c) (name c) (downloadingBse filename) ;;
                     fetch year url filepath ;;
                     ret true)
                    (fun err =>
                       addError (symbol c) (name c) (failedBse filename err) ;;
                       ret downloadedAny)
            end
      | _ => ret downloadedAny      (* cells.length < 2 *)
      end
  end.

Fixpoint bseRows (c : company) (folder : jsstring) (rows : list bse_tr)
    (downloadedAny : bool) : M bool :=
  match rows with
  | [] => ret downloadedAny
  | row :: rest =>
      d <- bseRow c folder row downloadedAny ;;
      bseRows c folder rest d
  end.

(** [extractAndDownloadReports()]: the rows of the table as the page answers
    them; the loop starts at index 1, after the header row. *)
Definition extractAndDownloadReports (c : company) (folder : jsstring)
    (table : answer (list bse_tr)) (downloadedAny : bool) : M bool :=
  rows <- expect table ;;
  bseRows c folder (drop 1 rows) downloadedAny.

Definition bseFolder (s : jsstring) : jsstring :=
  pathJoin (pathJoin (dirname w) (js "BSE_AnnualReports")) s.

(** The body of the [try] of scrapeBseReports.  [bse_search] stands for the
    awaited page calls up to the results table (goto, the search box, the
    autocomplete whose failure is ignored, submit, the wait for the table). *)
Definition scrapeBseReports_body (c : company) : M bool :=
  emit (Navigate baseUrl) ;;
  attempt (bse_search w (symbol c)) ;;
  let folder := bseFolder (symbol c) in
  mkdirSync folder ;;
  d1 <- extractAndDownloadReports c folder (bse_rows w (symbol c)) false ;;
  match bse_next w (symbol c) with
  | NoNextPage => ret d1
  | NextPageFails e => throw e
  | NextPage table => extractAndDownloadReports c folder table d1
  end.

Definition scrapeBseReports (c : company) : M bool :=
  addError (symbol c) (name c) (tryingBse c) ;;
  try_catch
    (scrapeBseReports_body c)
    (fun err =>
       addError (symbol c) (name c) (bseScrapingFailed c err) ;;
       ret false).

(** ** Fallback source: scrapeNseAnnualReports *)

Inductive fileType : Type := zip | pdf.

Definition extension (t : fileType) : jsstring :=
  match t with zip => js "zip" | pdf => js "pdf" end.

(** A row that passed the filter of [reportRows]: its three fields are there. *)
Record reportRow : Type := ReportRow {
  year : jsstring;
  url : jsstring;
  type : fileType;
}.

(** The type read off the url: [.zip], else [.pdf], else none. *)
Definition typeOfUrl (u : jsstring) : option fileType :=
  let l := JS.toLowerCase u in
  if JS.endsWith (js ".zip") l then Some zip
  else if JS.endsWith (js ".pdf") l then Some pdf
  else None.

(** [map] then [filter] on one row: the record of the row when
    [r.url && r.year && r.type && !isNaN(parseInt(r.year, 10))
     && parseInt(r.year, 10) >= 2009], nothing otherwise. *)
Definition reportRowOf (row : nse_tr) : option reportRow :=
  let y := JS.trim <$> toYr row in
  match link row, y with
  | Some u, Some y =>
      match typeOfUrl u with
      | Some t =>
          if negb (JS.eqb u []) && negb (JS.eqb y []) && negb (before2009 y)
          then Some (ReportRow y u t)
          else None
      | None => None
      end
  | _, _ => None
  end.

Definition reportRowsOf (rows : list nse_tr) : list reportRow :=
  omap reportRowOf rows.

Definition nseUrl (s : jsstring) : jsstring :=
  js "https://www.nseindia.com/get-quotes/equity?symbol=" ++ s.

Definition nseFolder (s : jsstring) : jsstring :=
  pathJoin (pathJoin (dirname w) (js "NSE_AnnualReports")) s.

Definition downloadingNse (filename : jsstring) : jsstring :=
  js "Downloading NSE report: " ++ filename ++ js "...".

Definition failedNse (filename err : jsstring) : jsstring :=
  js "Error downloading/extracting NSE report " ++ filename ++ js ": " ++ err.

Definition nseScrapingFailed (s err : jsstring) : jsstring :=
  js "NSE scraping failed for " ++ s ++ js ": " ++ err.

Definition nseFilename (s : jsstring) (r : reportRow) : jsstring :=
  sanitize (s ++ js "_" ++ year r ++ js "." ++ extension (type r)).

(** One turn of the loop over [reportRows]. *)
Definition nseReport (s : jsstring) (companyName : jsval) (folder : jsstring)
    (r : reportRow) : M unit :=
  let toYear := year r in
  let filename := nseFilename s r in
  let destPath := pathJoin folder filename in
  try_catch
    (emit (ConsoleLog (downloadingNse filename)) ;;
     fetch toYear (url r) destPath ;;
     match type r with
     | zip => extractZipToPdf destPath folder s toYear
     | pdf =>
         let newPdfName := s ++ js "_" ++ toYear ++ js ".pdf" in
         let newPdfPath := pathJoin folder newPdfName in
         if JS.eqb filename newPdfName then ret tt
         else renameSync destPath newPdfPath
     end)
    (fun e => addError s companyName (failedNse filename e)).

Fixpoint nseReports (s : jsstring) (companyName : jsval) (folder : jsstring)
    (rows : list reportRow) : M unit :=
  match rows with
  | [] => ret tt
  | r :: rest =>
      nseReport s companyName folder r ;;
      nseReports s companyName folder rest
  end.

Definition pageClose (s : jsstring) : M unit := attempt (nse_close w s).

Definition screenshotPath (s : jsstring) : jsstring :=
  js "debug_NSE_" ++ s ++ js ".png".

(** The body of the [try] of scrapeNseAnnualReports.  [nse_panel] stands for
    the awaited page calls up to the table of the annual-reports panel. *)
Definition scrapeNseAnnualReports_body (s : jsstring) (companyName : jsval)
    : M bool :=
  emit (Navigate (nseUrl s)) ;;
  attempt (nse_panel w s) ;;
  let folder := nseFolder s in
  mkdirSync folder ;;
  rows <- expect (nse_rows w s) ;;
  let reportRows := reportRowsOf rows in
  match reportRows with
  | [] => pageClose s ;; ret false        (* No reports but NOT an error *)
  | _ :: _ =>
      nseReports s companyName folder reportRows ;;
      pageClose s ;;
      ret true
  end.

Definition scrapeNseAnnualReports (s : jsstring) (companyName : jsval)
    : M bool :=
  attempt (nse_newPage w s) ;;
  try_catch
    (scrapeNseAnnualReports_body s companyName)
    (fun err =>
       addError s companyName (nseScrapingFailed s err) ;;
       try_catch
         (bytes <- expect (nse_screenshot w s) ;;
          writeFileSync (screenshotPath s) bytes)
         (fun _ => ret tt) ;;
       pageClose s ;;
       ret false).

(** ** The orchestrator: main *)

(** [row[key]] on a worksheet row. *)
Fixpoint cellOf (key : jsstring) (row : sheetRow) : jsval :=
  match row with
  | [] => Undefined
  | (k, v) :: rest => if JS.eqb k key then v else cellOf key rest
  end.

(** [allKeys.find((k) => k.toLowerCase() === lit)] *)
Definition findKey (lit : jsstring) (allKeys : list jsstring) : option jsstring :=
  List.find (fun k => JS.eqb (JS.toLowerCase k) lit) allKeys.

Definition symbolKeyOf (data : list sheetRow) : option jsstring :=
  match data with
  | first :: _ => findKey (js "symbol") (List.map fst first)
  | [] => None
  end.

Definition companyKeyOf (data : list sheetRow) : option jsstring :=
  match data with
  | first :: _ =>
      match findKey (js "company name") (List.map fst first) with
      | Some k => Some k
      | None => findKey (js "company") (List.map fst first)
      end
  | [] => None
  end.

(** The company of a row, or nothing when the loop [continue]s: the symbol
    cell is falsy, or empty once trimmed. *)
Definition companyOf (symbolKey : jsstring) (companyKey : option jsstring)
    (row : sheetRow) : option company :=
  let cell := cellOf symbolKey row in
  if truthy cell then
    let s := JS.trim (toString cell) in
    if JS.eqb s [] then None
    else
      let companyName :=
        match companyKey with
        | Some k => cellOf k row
        | None => Str []
        end in
      Some (Company s companyName)
  else None.

Definition noReports (s : jsstring) : jsstring :=
  js "No reports found on BSE or NSE for " ++ s.

Definition errorProcessing (s err : jsstring) : jsstring :=
  js "Error processing " ++ s ++ js ": " ++ err.

(** The body of the [try] of one iteration. *)
Definition processCompany_body (c : company) : M unit :=
  bseSuccess <- scrapeBseReports c ;;
  if bseSuccess then ret tt
  else
    nseSuccess <- scrapeNseAnnualReports (symbol c) (name c) ;;
    if nseSuccess then ret tt
    else addError (symbol c) (name c) (noReports (symbol c)).

(** The [try]/[catch] of one iteration. *)
Definition processCompany (c : company) : M unit :=
  try_catch
    (processCompany_body c)
    (fun err => addError (symbol c) (name c) (errorProcessing (symbol c) err)).

Fixpoint processAll (companies : list company) : M unit :=
  match companies with
  | [] => ret tt
  | c :: rest => processCompany c ;; processAll rest
  end.

(** The rows of the worksheet that the loop does not skip, in order. *)
Definition worklist (symbolKey : jsstring) (data : list sheetRow)
    : list company :=
  omap (companyOf symbolKey (companyKeyOf data)) data.

(** Lines 251 to 291: start-up and the loop over the rows. *)
Definition acquire : M unit :=
  attempt (launch w) ;;
  data <- expect (readFile w) ;;
  match data with
  | [] =>
      emit (ConsoleError (js "Excel sheet is empty")) ;;
      halt 1                              (* process.exit(1) *)
  | _ :: _ =>
      match symbolKeyOf data with
      | None =>
          emit (ConsoleError (js "No 'symbol' column found in Excel sheet.")) ;;
          halt 1                          (* process.exit(1) *)
      | Some symbolKey => processAll (worklist symbolKey data)
      end
  end.

Definition reportPath : jsstring := js "not_found_companies.xlsx".

Definition allHaveReports : jsstring :=
  js "All companies have reports on BSE or NSE.".

Definition writtenMessage (n : nat) : jsstring :=
  js "Written " ++ JS.ofNumber (N.of_nat n)
    ++ js " companies with errors or missing reports to 'not_found_companies.xlsx'.".

Definition failedWriting (e : jsstring) : jsstring :=
  js "Failed writing not found companies Excel: " ++ e.

(** [Object.entries(companyErrors).map(...)]; the order of the entries is
    left to the map. *)
Definition reportLines (ce : gmap jsstring info) : list reportLine :=
  List.map
    (fun '(s, i) =>
       ReportLine s (if truthy (info_name i) then info_name i else Str [])
                  (errors i))
    (map_to_list ce).

(** [XLSX.writeFile(wb, 'not_found_companies.xlsx')] *)
Definition writeFile (lines : list reportLine) : M unit :=
  emit (WriteReport lines) ;;
  attempt (io_fault w (OpWriteWorkbook reportPath)) ;;
  fun st => (Return tt, with_report (Some lines) st).

(** Lines 293 to 310: the failure report or the success message. *)
Definition writeFailureReport : M unit :=
  fun st =>
    if bool_decide (companyErrors st = ∅) then emit (ConsoleLog allHaveReports) st
    else
      try_catch
        (let rows := reportLines (companyErrors st) in
         writeFile rows ;;
         emit (ConsoleLog (writtenMessage (length rows))))
        (fun e => emit (ConsoleError (failedWriting e)))
        st.

Definition main : M unit :=
  acquire ;;
  writeFailureReport ;;
  attempt (browser_close w) ;;
  emit (ConsoleLog (js "All done!")).

(** [main().catch(console.error)] *)
Definition run : M unit :=
  try_catch main (fun err => emit (ConsoleError err)).

End Program.

(** ** Vocabulary of the properties *)

(** A string that does not start with white space. *)
Definition clean_head (s : jsstring) : Prop :=
  match s with
  | c :: _ => JS.isWhiteSpace c = false
  | [] => True
  end.

(** The starting state of a run: an empty ledger, nothing printed, no report,
    and whatever is on disk. *)
Definition boot (d : gmap jsstring file) : state :=
  {| companyErrors := ∅; disk := d; report := None; console := [] |}.

(** The ledger is append-only: entries stay, keep their name, and their
    messages only get longer. *)
Definition ledger_le (o o' : gmap jsstring info) : Prop :=
  ∀ k i, o !! k = Some i →
    ∃ i', o' !! k = Some i' ∧ info_name i' = info_name i
          ∧ errors i `prefix_of` errors i'.

(** The events of the acquisition phase (everything before the report). *)
Definition acquisitionEvent (e : event) : Prop :=
  match e with
  | ConsoleError _ | ConsoleWarn _ | Stdout _ | Navigate _ | OpenArchive _ => True
  | Fetch y _ _ => before2009 y = false
  | ConsoleLog m =>
      (∃ p, m = js "Extracted PDF from ZIP and renamed: " ++ p)
      ∨ (∃ f, m = js "Downloading NSE report: " ++ f)
  | WriteReport _ => False
  end.

Definition grows (st st' : state) : Prop :=
  ledger_le (companyErrors st) (companyErrors st')
  ∧ report st' = report st
  ∧ ∃ evs, console st' = console st ++ evs ∧ Forall acquisitionEvent evs.

Definition steps {A} (m : M A) : Prop := ∀ st, grows st (m st).2.

(** The events printed between two states. *)
Definition news (st st' : state) : list event :=
  drop (length (console st)) (console st').

Definition has_message (st : state) (k m : jsstring) : Prop :=
  ∃ i, companyErrors st !! k = Some i ∧ m ∈ errors i.

(** addError can record under [k]: the ledger has an entry of its own for
    [k], or [k] is not a name inherited from Object.prototype. *)
Definition accepts (st : state) (k : jsstring) : Prop :=
  is_Some (companyErrors st !! k) ∨ inherited k = false.

(** The ledger after a successful [addError k nm msg]. *)
Definition recorded (k : jsstring) (nm : jsval) (msg : jsstring)
    (o : gmap jsstring info) : gmap jsstring info :=
  match o !! k with
  | Some i => <[k := Info (info_name i) (errors i ++ [msg])]> o
  | None => <[k := Info nm [msg]]> o
  end.

(** A state property that a computation maintains. *)
Definition keeps {A} (P : state → Prop) (m : M A) : Prop :=
  ∀ st, P st → P (m st).2.

(** Every reference handed to the fetcher so far had a numeric year of 2009
    or later. *)
Definition fetchOk (e : event) : Prop :=
  match e with
  | Fetch y _ _ => ∃ n, JS.parseInt y = Some n ∧ (2009 ≤ n)%Z
  | _ => True
  end.

Definition fetchedFrom2009 (st : state) : Prop := Forall fetchOk (console st).

(** A computation that leaves the ledger alone and never ends the process. *)
Definition quiet {A} (m : M A) : Prop :=
  ∀ st, companyErrors (m st).2 = companyErrors st ∧ ∀ c, (m st).1 ≠ Halt c.

(** The url answers with a status other than 200. *)
Definition non200 (w : World) (u : jsstring) : Prop :=
  match https_get w u with
  | Responds status _ _ => status ≠ 200
  | RequestFails _ => False
  end.

(** An entry that the loop of the normalizer gets through: it is no pdf, or
    its data can be read. *)
Definition extractable (entry : zipEntry) : Prop :=
  JS.endsWith (js ".pdf") (JS.toLowerCase (entryName entry)) = true →
  ∃ bytes, getData entry = Fine bytes.

(** C4 as the specification words it: an archive of at least 1 KiB is gone
    from the disk once the normalizer is done with it. *)
Definition archive_always_deleted (w : World) (st : state)
    (zipFilePath folderPath sym yr : jsstring) : Prop :=
  ∀ f, disk st !! zipFilePath = Some f →
       1024 ≤ N.of_nat (length (data f)) →
       disk (extractZipToPdf w zipFilePath folderPath sym yr st).2 !! zipFilePath = None.

(** *** Sample worlds *)

(** Nothing fails on disk, every url answers 404, nothing reads as an archive,
    both sites time out, the worksheet has no rows. *)
Definition bleak : World := {|
  dirname := js "/app";
  io_fault := fun _ => None;
  https_get := fun _ => Responds 404 [] None;
  speed_ticks := fun _ => [];
  readZip := fun _ => Raises (js "Invalid or unsupported zip format. No END header found");
  bse_search := fun _ => Some (js "Waiting for selector failed: timeout 15000ms exceeded");
  bse_rows := fun _ => Fine [];
  bse_next := fun _ => NoNextPage;
  nse_newPage := fun _ => None;
  nse_panel := fun _ => Some (js "Waiting for selector failed: timeout 30000ms exceeded");
  nse_rows := fun _ => Fine [];
  nse_screenshot := fun _ => Raises (js "Target closed");
  nse_close := fun _ => None;
  launch := None;
  readFile := Fine [];
  browser_close := None;
|}.

(** A world in which every byte sequence reads as an archive with these
    entries. *)
Definition setArchive (entries : list zipEntry) (w : World) : World := {|
  dirname := dirname w;
  io_fault := io_fault w;
  https_get := https_get w;
  speed_ticks := speed_ticks w;
  readZip := fun _ => Fine entries;
  bse_search := bse_search w;
  bse_rows := bse_rows w;
  bse_next := bse_next w;
  nse_newPage := nse_newPage w;
  nse_panel := nse_panel w;
  nse_rows := nse_rows w;
  nse_screenshot := nse_screenshot w;
  nse_close := nse_close w;
  launch := launch w;
  readFile := readFile w;
  browser_close := browser_close w;
|}.

(** A world with another worksheet. *)
Definition setSheet (data : list sheetRow) (w : World) : World := {|
  dirname := dirname w;
  io_fault := io_fault w;
  https_get := https_get w;
  speed_ticks := speed_ticks w;
  readZip := readZip w;
  bse_search := bse_search w;
  bse_rows := bse_rows w;
  bse_next := bse_next w;
  nse_newPage := nse_newPage w;
  nse_panel := nse_panel w;
  nse_rows := nse_rows w;
  nse_screenshot := nse_screenshot w;
  nse_close := nse_close w;
  launch := launch w;
  readFile := Fine data;
  browser_close := browser_close w;
|}.

(** A world in which the NSE panel renders with these rows. *)
Definition setNse (rows : list nse_tr) (w : World) : World := {|
  dirname := dirname w;
  io_fault := io_fault w;
  https_get := https_get w;
  speed_ticks := speed_ticks w;
  readZip := readZip w;
  bse_search := bse_search w;
  bse_rows := bse_rows w;
  bse_next := bse_next w;
  nse_newPage := nse_newPage w;
  nse_panel := fun _ => None;
  nse_rows := fun _ => Fine rows;
  nse_screenshot := nse_screenshot w;
  nse_close := nse_close w;
  launch := launch w;
  readFile := readFile w;
  browser_close := browser_close w;
|}.

(** A world in which urls are served by [get]. *)
Definition setHttps (get : jsstring → http_outcome) (w : World) : World := {|
  dirname := dirname w;
  io_fault := io_fault w;
  https_get := get;
  speed_ticks := speed_ticks w;
  readZip := readZip w;
  bse_search := bse_search w;
  bse_rows := bse_rows w;
  bse_next := bse_next w;
  nse_newPage := nse_newPage w;
  nse_panel := nse_panel w;
  nse_rows := nse_rows w;
  nse_screenshot := nse_screenshot w;
  nse_close := nse_close w;
  launch := launch w;
  readFile := readFile w;
  browser_close := browser_close w;
|}.

(** A world in which no write stream can be opened: the disk is full. *)
Definition setDiskFull (w : World) : World := {|
  dirname := dirname w;
  io_fault := fun op =>
    match op with
    | OpOpenStream _ => Some (js "ENOSPC: no space left on device, open")
    | _ => io_fault w op
    end;
  https_get := https_get w;
  speed_ticks := speed_ticks w;
  readZip := readZip w;
  bse_search := bse_search w;
  bse_rows := bse_rows w;
  bse_next := bse_next w;
  nse_newPage := nse_newPage w;
  nse_panel := nse_panel w;
  nse_rows := nse_rows w;
  nse_screenshot := nse_screenshot w;
  nse_close := nse_close w;
  launch := launch w;
  readFile := readFile w;
  browser_close := browser_close w;
|}.

Definition withArchive (entries : list zipEntry) : World :=
  setArchive entries bleak.

(** A disk holding one closed file of [n] zero bytes. *)
Definition oneFile (p : jsstring) (n : nat) : gmap jsstring file :=
  {[ p := File (repeat Byte.x00 n) false ]}.

Definition sampleZip : jsstring := js "/app/NSE_AnnualReports/TCS/TCS_2012.zip".

Definition sampleFolder : jsstring := js "/app/NSE_AnnualReports/TCS".

(** The companies that the loop of main processes, read off the worksheet. *)
Definition processed (w : World) : list company :=
  match readFile w with
  | Fine data =>
      match symbolKeyOf data with
      | Some symbolKey => worklist symbolKey data
      | None => []
      end
  | Raises _ => []
  end.

Definition withSheet (data : list sheetRow) : World := setSheet data bleak.

(** A worksheet with one company. *)
Definition oneCompany : World :=
  withSheet [ [ (js "Symbol", Str (js "TCS"));
                (js "Company Name", Str (js "Tata Consultancy Services")) ] ].

(** A worksheet whose first symbol is the name of a property that every
    object inherits, followed by an ordinary company. *)
Definition constructorFirst : World :=
  withSheet [ [ (js "Symbol", Str (js "constructor")) ];
              [ (js "Symbol", Str (js "TCS")) ] ].

(** The success message has not been printed. *)
Definition noSuccess (st : state) : Prop :=
  ConsoleLog allHaveReports ∉ console st.

(** *** The fallback attempt *)

(** The NSE page of [s] opens, its panel and table render, the folder can be
    made, and the table holds [rows]. *)
Definition nseArrives (w : World) (s : jsstring) (rows : list nse_tr) : Prop :=
  nse_newPage w s = None ∧ nse_panel w s = None
  ∧ io_fault w (OpMkdir (nseFolder w s)) = None
  ∧ nse_rows w s = Fine rows.

(** The fetcher resolves for this url and destination. *)
Definition downloads (w : World) (u dest : jsstring) : Prop :=
  ∀ st, (downloadFileWithSpeed w u dest st).1 = Return tt.

Definition nseDest (w : World) (s : jsstring) (r : reportRow) : jsstring :=
  pathJoin (nseFolder w s) (nseFilename s r).

(** C1 as the specification words it: the fallback attempt is Satisfied (the
    scraper returns true) exactly when one of the references it found
    downloads, or it found none. *)
Definition fallback_satisfied_as_stated (w : World) (s : jsstring)
    (nm : jsval) (st : state) : Prop :=
  ∀ rows b st',
    nseArrives w s rows →
    scrapeNseAnnualReports w s nm st = (Return b, st') →
    (b = true ↔
       (∃ r, r ∈ reportRowsOf rows ∧ downloads w (url r) (nseDest w s r))
       ∨ reportRowsOf rows = []).

(** [bleak], except that the NSE panel renders with these rows and urls are
    served by [get]. *)
Definition withNse (rows : list nse_tr) (get : jsstring → http_outcome)
    : World := setHttps get (setNse rows bleak).

Definition notFound (u : jsstring) : http_outcome := Responds 404 [] None.

Definition served (u : jsstring) : http_outcome :=
  Responds 200 (repeat Byte.x25 16) None.

(** One row of the NSE table: year 2012, a pdf. *)
Definition row2012 : nse_tr :=
  NseTr (Some (js " 2012 "))
        (Some (js "https://nsearchives.nseindia.com/annual_reports/AR_TCS_2012.pdf")).

(** Two companies, nothing on BSE, one report of 2012 on NSE that downloads. *)
Definition harvest : World :=
  setSheet [ [ (js "Symbol", Str (js "TCS")) ];
             [ (js "Symbol", Str (js "INFY")) ] ]
           (withNse [row2012] served).

(** A computation that never ends the process. *)
Definition noHalt {A} (m : M A) : Prop := ∀ st c, (m st).1 ≠ Halt c.

(** The write stream on [dest] opens and takes what is piped into it. *)
Definition streamsOpen (w : World) (dest : jsstring) : Prop :=
  io_fault w (OpOpenStream dest) = None
  ∧ io_fault w (OpStreamWrite dest) = None.

(** *** Further vocabulary *)

(** A unit that may stay in a file name. *)
Definition safeUnit (c : N) : Prop := unsafeUnit c = false.

(** Every write stream of the world opens and takes what is piped into it. *)
Definition allStreamsOpen (w : World) : Prop := ∀ p, streamsOpen w p.

(** An entry whose name ends in .pdf, in any letter case. *)
Definition isPdf (entry : zipEntry) : bool :=
  JS.endsWith (js ".pdf") (JS.toLowerCase (entryName entry)).

(** The data of the last pdf entry of an archive, if it has one. *)
Fixpoint lastPdf (entries : list zipEntry) (found : option (list Byte.byte))
    : option (list Byte.byte) :=
  match entries with
  | [] => found
  | entry :: rest =>
      if isPdf entry then
        match getData entry with
        | Fine bytes => lastPdf rest (Some bytes)
        | Raises _ => lastPdf rest found
        end
      else lastPdf rest found
  end.

(** Every message of the ledger has been printed with console.error. *)
Definition ledgerPrinted (st : state) : Prop :=
  ∀ k i m, companyErrors st !! k = Some i → m ∈ errors i →
           ConsoleError m ∈ console st.

(** A relation between the state before and the state after that a
    computation respects. *)
Definition follows {A} (R : state → state → Prop) (m : M A) : Prop :=
  ∀ st, R st (m st).2.

(** The console has grown by events that all satisfy [ok]. *)
Definition prints (ok : event → Prop) (st st' : state) : Prop :=
  ∃ evs, console st' = console st ++ evs ∧ Forall ok evs.

(** The shape of a download that the BSE scraper starts for company [c]. *)
Definition bseShape (w : World) (c : company) (e : event) : Prop :=
  match e with
  | Fetch y u d =>
      JS.trim y = y
      ∧ JS.startsWith (js "https://") u = true
      ∧ d = pathJoin (bseFolder w (symbol c))
                     (sanitize (symbol c ++ js "_" ++ y ++ js ".pdf"))
  | _ => True
  end.

(** The shape of a download that the NSE scraper starts for symbol [s]. *)
Definition nseShape (w : World) (s : jsstring) (e : event) : Prop :=
  match e with
  | Fetch y u d =>
      JS.trim y = y
      ∧ ∃ t, typeOfUrl u = Some t
             ∧ d = pathJoin (nseFolder w s)
                            (sanitize (s ++ js "_" ++ y ++ js "." ++ extension t))
  | _ => True
  end.

(** A download of the run belongs to a company of the worklist and has one of
    the two shapes. *)
Definition fetchShape (w : World) (e : event) : Prop :=
  match e with
  | Fetch _ _ _ =>
      ∃ c, c ∈ processed w ∧ (bseShape w c e ∨ nseShape w (symbol c) e)
  | _ => True
  end.

(** What a predicate on events must grant for the downloads of the BSE
    scraper for [c], and for those of the NSE scraper for [s]. *)
Definition bseGrant (w : World) (ok : event → Prop) (c : company) : Prop :=
  ∀ y u,
    JS.trim y = y → before2009 y = false →
    JS.startsWith (js "https://") u = true →
    ok (Fetch y u (pathJoin (bseFolder w (symbol c))
                     (sanitize (symbol c ++ js "_" ++ y ++ js ".pdf")))).

Definition nseGrant (w : World) (ok : event → Prop) (s : jsstring) : Prop :=
  ∀ row r, reportRowOf row = Some r →
    ok (Fetch (year r) (url r) (nseDest w s r)).

(** A world in which the BSE search succeeds and shows this table, followed
    by this second page. *)
Definition setBse (rows : list bse_tr) (next : bse_pager) (w : World) : World := {|
  dirname := dirname w;
  io_fault := io_fault w;
  https_get := https_get w;
  speed_ticks := speed_ticks w;
  readZip := readZip w;
  bse_search := fun _ => None;
  bse_rows := fun _ => Fine rows;
  bse_next := fun _ => next;
  nse_newPage := nse_newPage w;
  nse_panel := nse_panel w;
  nse_rows := nse_rows w;
  nse_screenshot := nse_screenshot w;
  nse_close := nse_close w;
  launch := launch w;
  readFile := readFile w;
  browser_close := browser_close w;
|}.

(** A BSE table: the header row and one report of 2015. *)
Definition bseTable : list bse_tr :=
  [ Tr [Td (js "Year") None; Td (js "Annual Report") None];
    Tr [Td (js " 2015 ") None;
        Td (js "pdf") (Some (js "https://www.bseindia.com/bseplus/AnnualReport/532540/5325400315.pdf"))] ].

(** One company; BSE lists the report of 2015 and it downloads; there is no
    second page. *)
Definition primaryWorld : World :=
  setSheet [ [ (js "Symbol", Str (js "TCS")) ] ]
    (setBse bseTable NoNextPage (setHttps served bleak)).

(** The same, but the link to the second page fails to load. *)
Definition brokenPager : World :=
  setSheet [ [ (js "Symbol", Str (js "TCS")) ] ]
    (setBse bseTable (NextPageFails (js "Navigation timeout of 15000 ms exceeded"))
       (setHttps served bleak)).

Definition tcs : company := Company (js "TCS") (Str []).

(** Every url answers 200 with 2 KiB. *)
Definition servedArchive (u : jsstring) : http_outcome :=
  Responds 200 (repeat Byte.x50 2048) None.

(** The entries of a sample archive: two pdf entries around a text file. *)
Definition sampleEntries : list zipEntry :=
  [ ZipEntry (js "a/first.pdf") (Fine [Byte.x01]);
    ZipEntry (js "notes.txt") (Fine [Byte.x02]);
    ZipEntry (js "REPORT.PDF") (Fine [Byte.x03]) ].

(** Urls answer with 2 KiB that read as the sample archive. *)
Definition zipWorld : World :=
  setArchive sampleEntries (setHttps servedArchive bleak).

(** A zip reference and a pdf reference of the NSE table; the year text of
    the second holds a slash. *)
Definition zip2012 : reportRow :=
  ReportRow (js "2012")
    (js "https://nsearchives.nseindia.com/annual_reports/AR_TCS_2012.zip") zip.

Definition pdf2012 : reportRow :=
  ReportRow (js "2012/13")
    (js "https://nsearchives.nseindia.com/annual_reports/AR_TCS_2012.pdf") pdf.

(** [bleak], except that the browser cannot open a page for NSE. *)
Definition noNewPage : World := {|
  dirname := dirname bleak;
  io_fault := io_fault bleak;
  https_get := https_get bleak;
  speed_ticks := speed_ticks bleak;
  readZip := readZip bleak;
  bse_search := bse_search bleak;
  bse_rows := bse_rows bleak;
  bse_next := bse_next bleak;
  nse_newPage := fun _ => Some (js "Protocol error (Target.createTarget): Target closed");
  nse_panel := nse_panel bleak;
  nse_rows := nse_rows bleak;
  nse_screenshot := nse_screenshot bleak;
  nse_close := nse_close bleak;
  launch := launch bleak;
  readFile := readFile bleak;
  browser_close := browser_close bleak;
|}.

(** A worksheet whose first row has no symbol cell; the second row has. *)
Definition gapFirst : list sheetRow :=
  [ [ (js "Company Name", Str (js "Tata Consultancy Services")) ];
    [ (js "Symbol", Str (js "INFY")); (js "Company Name", Str (js "Infosys")) ] ].

(** [bleak], except that every url answers 200 with 2 KiB that arrive over
    three full seconds: 1536 bytes, then 384, then 128. *)
Definition slowTransfer : World := {|
  dirname := dirname bleak;
  io_fault := io_fault bleak;
  https_get := servedArchive;
  speed_ticks := fun _ => [1536; 384; 128];
  readZip := readZip bleak;
  bse_search := bse_search bleak;
  bse_rows := bse_rows bleak;
  bse_next := bse_next bleak;
  nse_newPage := nse_newPage bleak;
  nse_panel := nse_panel bleak;
  nse_rows := nse_rows bleak;
  nse_screenshot := nse_screenshot bleak;
  nse_close := nse_close bleak;
  launch := launch bleak;
  readFile := readFile bleak;
  browser_close := browser_close bleak;
|}.

(* ===================================================================== *)
(** * Properties *)
(* ===================================================================== *)

(** ** File names *)

Section Sanitize.

Lemma trimStart_clean s : clean_head (JS.trimStart s).
Proof.
  induction s as [|c s IH]; simpl; [done|].
  destruct (JS.isWhiteSpace c) eqn:E; [done|]. exact E.
Qed.

Lemma trimStart_of_clean s : clean_head s → JS.trimStart s = s.
Proof. destruct s as [|c s]; simpl; [done|]. by intros ->. Qed.

Lemma trimStart_suffix s : ∃ p, s = p ++ JS.trimStart s.
Proof.
  induction s as [|c s IH]; simpl.
  - by exists [].
  - destruct (JS.isWhiteSpace c).
    + destruct IH as [p Hp]. exists (c :: p). simpl. by f_equal.
    + by exists [].
Qed.

Lemma trimEnd_prefix s : ∃ q, s = JS.trimEnd s ++ q.
Proof.
  unfold JS.trimEnd. destruct (trimStart_suffix (rev s)) as [p Hp].
  exists (rev p). rewrite <- rev_app_distr, <- Hp. by rewrite rev_involutive.
Qed.

Lemma clean_head_prefix a q : clean_head (a ++ q) → clean_head a.
Proof. by destruct a. Qed.

Lemma trimEnd_clean s : clean_head s → clean_head (JS.trimEnd s).
Proof.
  intros H. destruct (trimEnd_prefix s) as [q Hq].
  rewrite Hq in H. by eapply clean_head_prefix.
Qed.

Lemma trimEnd_idem s : JS.trimEnd (JS.trimEnd s) = JS.trimEnd s.
Proof.
  unfold JS.trimEnd. rewrite rev_involutive.
  by rewrite (trimStart_of_clean _ (trimStart_clean _)).
Qed.

Lemma trim_idem s : JS.trim (JS.trim s) = JS.trim s.
Proof.
  unfold JS.trim.
  rewrite (trimStart_of_clean (JS.trimEnd (JS.trimStart s))).
  - apply trimEnd_idem.
  - apply trimEnd_clean, trimStart_clean.
Qed.

Lemma Forall_trimStart (P : N → Prop) s : Forall P s → Forall P (JS.trimStart s).
Proof.
  intros H. destruct (trimStart_suffix s) as [p Hp].
  rewrite Hp in H. by apply Forall_app in H as [_ H].
Qed.

Lemma Forall_trim (P : N → Prop) s : Forall P s → Forall P (JS.trim s).
Proof.
  intros H. unfold JS.trim, JS.trimEnd.
  apply Forall_rev, Forall_trimStart, Forall_rev. by apply Forall_trimStart.
Qed.

Lemma stripUnsafe_safe s : Forall (fun c => unsafeUnit c = false) (stripUnsafe s).
Proof.
  induction s as [|c s IH]; simpl; [constructor|].
  destruct (unsafeUnit c) eqn:E; simpl; [done|]. by constructor.
Qed.

Lemma stripUnsafe_id s :
  Forall (fun c => unsafeUnit c = false) s → stripUnsafe s = s.
Proof.
  induction 1 as [|c s Hc _ IH]; simpl; [done|].
  rewrite Hc. simpl. by f_equal.
Qed.

(** C9. Filename sanitization (dropping the code units of backslash, slash,
    colon, double quote, star, question mark, less-than, greater-than and bar,
    then trimming surrounding white space) is idempotent: for every string,
    sanitizing an already sanitized name gives the same name. *)
Theorem sanitize_idempotent (s : jsstring) :
  sanitize (sanitize s) = sanitize s.
Proof.
  unfold sanitize.
  rewrite (stripUnsafe_id (JS.trim (stripUnsafe s))).
  - apply trim_idem.
  - apply Forall_trim, stripUnsafe_safe.
Qed.

End Sanitize.

(** ** The monad and the ledger *)

Section Framework.

Lemma ledger_le_refl o : ledger_le o o.
Proof. intros k i H. exists i. by repeat split. Qed.

Lemma ledger_le_trans o1 o2 o3 :
  ledger_le o1 o2 → ledger_le o2 o3 → ledger_le o1 o3.
Proof.
  intros H12 H23 k i H.
  destruct (H12 _ _ H) as (i2 & H2 & Hn2 & Hp2).
  destruct (H23 _ _ H2) as (i3 & H3 & Hn3 & Hp3).
  exists i3. repeat split; [done|congruence|by etrans].
Qed.

Lemma grows_refl st : grows st st.
Proof.
  repeat split; [apply ledger_le_refl|].
  exists []. by rewrite app_nil_r.
Qed.

Lemma grows_trans st1 st2 st3 : grows st1 st2 → grows st2 st3 → grows st1 st3.
Proof.
  intros (Hl1 & Hr1 & evs1 & Hc1 & Hf1) (Hl2 & Hr2 & evs2 & Hc2 & Hf2).
  repeat split.
  - by eapply ledger_le_trans.
  - congruence.
  - exists (evs1 ++ evs2). split.
    + by rewrite Hc2, Hc1, app_assoc.
    + by apply Forall_app.
Qed.

Lemma steps_ret {A} (a : A) : steps (ret a).
Proof. intros st. apply grows_refl. Qed.

Lemma steps_throw {A} e : steps (@throw A e).
Proof. intros st. apply grows_refl. Qed.

Lemma steps_halt {A} c : steps (@halt A c).
Proof. intros st. apply grows_refl. Qed.

Lemma steps_attempt r : steps (attempt r).
Proof. destruct r; [apply steps_throw|apply steps_ret]. Qed.

Lemma steps_expect {A} (r : answer A) : steps (expect r).
Proof. destruct r; [apply steps_ret|apply steps_throw]. Qed.

Lemma steps_bind {A B} (m : M A) (k : A → M B) :
  steps m → (∀ a, steps (k a)) → steps (bind m k).
Proof.
  intros Hm Hk st. unfold bind. specialize (Hm st).
  destruct (m st) as [[a|e|c] st1]; simpl in *; [|done..].
  eapply grows_trans; [exact Hm|apply Hk].
Qed.

Lemma steps_try_catch {A} (m : M A) (h : jsstring → M A) :
  steps m → (∀ e, steps (h e)) → steps (try_catch m h).
Proof.
  intros Hm Hh st. unfold try_catch. specialize (Hm st).
  destruct (m st) as [[a|e|c] st1]; simpl in *; [done| |done].
  eapply grows_trans; [exact Hm|apply Hh].
Qed.

Lemma steps_emit e : acquisitionEvent e → steps (emit e).
Proof.
  intros He st. repeat split; [apply ledger_le_refl|].
  exists [e]. split; [done|]. by constructor.
Qed.

Lemma grows_with_disk f st : grows st (with_disk f st).
Proof.
  repeat split; [apply ledger_le_refl|].
  exists []. by rewrite app_nil_r.
Qed.

Lemma addError_run k nm msg st :
  addError k nm msg st =
    if decide (accepts st k)
    then (Return tt,
          with_event (ConsoleError msg)
            (with_companyErrors (recorded k nm msg) st))
    else (Throw pushOfUndefined, st).
Proof.
  unfold addError, accepts, readProperty, recorded.
  destruct (companyErrors st !! k) as [i|] eqn:E.
  - rewrite E. rewrite decide_True by (left; eauto).
    unfold emit, with_event, with_companyErrors. simpl. by rewrite E.
  - destruct (inherited k) eqn:Ei.
    + rewrite E. rewrite decide_False; [done|].
      intros [[? ?]|?]; congruence.
    + rewrite lookup_insert_eq. rewrite decide_True by (by right).
      unfold emit, with_event, with_companyErrors. simpl.
      by rewrite E, insert_insert_eq.
Qed.

Lemma recorded_le k nm msg o : ledger_le o (recorded k nm msg o).
Proof.
  intros k' i H. unfold recorded.
  destruct (decide (k = k')) as [->|Hne].
  - rewrite H. exists (Info (info_name i) (errors i ++ [msg])).
    rewrite lookup_insert_eq. split; [done|]. split; [done|].
    by apply prefix_app_r.
  - exists i. split; [|done].
    destruct (o !! k); by rewrite lookup_insert_ne.
Qed.

Lemma steps_addError k nm msg : steps (addError k nm msg).
Proof.
  intros st. rewrite addError_run. case_decide; [|apply grows_refl].
  repeat split; simpl.
  - apply recorded_le.
  - exists [ConsoleError msg]. split; [done|]. by constructor.
Qed.

End Framework.

(** ** What every part of the acquisition does to the ledger and the console *)

Create HintDb steps.

#[global] Hint Resolve steps_ret steps_throw steps_halt steps_attempt
  steps_expect steps_addError grows_refl grows_with_disk : steps.

Ltac steps_step :=
  match goal with
  | |- steps (bind _ _) => apply steps_bind; [|intros ?]
  | |- steps (try_catch _ _) => apply steps_try_catch; [|intros ?]
  | |- steps (emit _) => apply steps_emit; simpl; eauto
  | |- steps (if ?b then _ else _) => destruct b eqn:?
  | |- steps (match ?x with _ => _ end) => destruct x eqn:?
  | |- steps _ => solve [auto with steps]
  end.

Ltac steps_auto := repeat steps_step.

Section Acquisition.

Context (w : World).

Lemma steps_statSync p : steps (statSync w p).
Proof.
  unfold statSync. steps_step; [steps_auto|].
  intros st. cbv beta. destruct (disk st !! p); cbn [snd]; auto with steps.
Qed.

Lemma steps_writeFileSync p bytes : steps (writeFileSync w p bytes).
Proof.
  unfold writeFileSync. steps_step; [steps_auto|].
  intros st. cbn [snd]; auto with steps.
Qed.

Lemma steps_unlinkSync p : steps (unlinkSync w p).
Proof.
  unfold unlinkSync. steps_step; [steps_auto|].
  intros st. cbv beta. destruct (disk st !! p); cbn [snd]; auto with steps.
Qed.

Lemma steps_renameSync p q : steps (renameSync w p q).
Proof.
  unfold renameSync. steps_step; [steps_auto|].
  intros st. cbv beta. destruct (disk st !! p); cbn [snd]; auto with steps.
Qed.

Lemma steps_mkdirSync p : steps (mkdirSync w p).
Proof. unfold mkdirSync. steps_auto. Qed.

Lemma steps_createWriteStream dest : steps (createWriteStream w dest).
Proof.
  unfold createWriteStream. steps_step; [steps_auto|].
  intros st. cbn [snd]; auto with steps.
Qed.

Lemma steps_pipe dest body : steps (pipe w dest body).
Proof.
  unfold pipe. steps_step; [steps_auto|].
  intros st. cbn [snd]; auto with steps.
Qed.

Lemma steps_closeStream dest : steps (closeStream dest).
Proof. intros st. unfold closeStream. cbn [snd]. auto with steps. Qed.

Lemma steps_speedInterval ticks : steps (speedInterval ticks).
Proof.
  induction ticks as [|speed rest IH]; cbn [speedInterval]; [steps_auto|].
  apply steps_bind; [by apply steps_emit|]. by intros _.
Qed.

#[local] Hint Resolve steps_statSync steps_writeFileSync steps_unlinkSync
  steps_renameSync steps_mkdirSync steps_createWriteStream steps_pipe
  steps_closeStream steps_speedInterval : steps.

Lemma steps_downloadFileWithSpeed url dest :
  steps (downloadFileWithSpeed w url dest).
Proof. unfold downloadFileWithSpeed. steps_auto. Qed.

Lemma steps_fetch year url dest :
  before2009 year = false → steps (fetch w year url dest).
Proof.
  intros H. unfold fetch. steps_step; [steps_auto|].
  apply steps_downloadFileWithSpeed.
Qed.

Lemma steps_AdmZip p : steps (AdmZip w p).
Proof.
  unfold AdmZip. do 2 (steps_step; [steps_auto|]).
  intros st. cbv beta. destruct (disk st !! p); [|cbn [snd]; auto with steps].
  destruct (readZip w _); cbn [snd]; auto with steps.
Qed.

#[local] Hint Resolve steps_downloadFileWithSpeed steps_AdmZip : steps.

Lemma steps_extractEntries folderPath sym yr entries extracted :
  steps (extractEntries w folderPath sym yr entries extracted).
Proof.
  revert extracted. induction entries as [|entry rest IH]; intros extracted;
    simpl; steps_auto; apply IH.
Qed.

#[local] Hint Resolve steps_extractEntries : steps.

Lemma steps_extractZipToPdf zipFilePath folderPath sym yr :
  steps (extractZipToPdf w zipFilePath folderPath sym yr).
Proof. unfold extractZipToPdf, extractZipToPdf_body. steps_auto. Qed.

#[local] Hint Resolve steps_extractZipToPdf : steps.

Lemma steps_bseRow c folder row downloadedAny :
  steps (bseRow w c folder row downloadedAny).
Proof.
  unfold bseRow. steps_auto. by apply steps_fetch.
Qed.

Lemma steps_bseRows c folder rows downloadedAny :
  steps (bseRows w c folder rows downloadedAny).
Proof.
  revert downloadedAny. induction rows as [|row rest IH]; intros d; simpl.
  - steps_auto.
  - steps_step; [apply steps_bseRow|apply IH].
Qed.

Lemma steps_extractAndDownloadReports c folder table downloadedAny :
  steps (extractAndDownloadReports w c folder table downloadedAny).
Proof.
  unfold extractAndDownloadReports. steps_step; [steps_auto|].
  apply steps_bseRows.
Qed.

#[local] Hint Resolve steps_extractAndDownloadReports : steps.

Lemma steps_scrapeBseReports c : steps (scrapeBseReports w c).
Proof. unfold scrapeBseReports, scrapeBseReports_body. steps_auto. Qed.

Lemma reportRowOf_year row r :
  reportRowOf row = Some r → before2009 (year r) = false.
Proof.
  unfold reportRowOf. intros H.
  destruct (link row) as [u|]; [|done].
  destruct (toYr row) as [y|]; simpl in H; [|done].
  destruct (typeOfUrl u) as [t|]; [|done].
  destruct (before2009 (JS.trim y)) eqn:E.
  - by rewrite !andb_false_r in H.
  - destruct (_ && _) in H; [|done]. by injection H as <-.
Qed.

Lemma reportRowsOf_year rows :
  Forall (fun r => before2009 (year r) = false) (reportRowsOf rows).
Proof.
  apply Forall_forall. intros r Hr.
  apply list_elem_of_omap in Hr as (row & _ & Hrow).
  by eapply reportRowOf_year.
Qed.

Lemma steps_nseReport s companyName folder r :
  before2009 (year r) = false → steps (nseReport w s companyName folder r).
Proof.
  intros H. unfold nseReport. steps_auto. by apply steps_fetch.
Qed.

Lemma steps_nseReports s companyName folder rows :
  Forall (fun r => before2009 (year r) = false) rows →
  steps (nseReports w s companyName folder rows).
Proof.
  induction 1 as [|r rest Hr _ IH]; simpl.
  - steps_auto.
  - steps_step; [by apply steps_nseReport|apply IH].
Qed.

Lemma steps_pageClose s : steps (pageClose w s).
Proof. unfold pageClose. steps_auto. Qed.

#[local] Hint Resolve steps_pageClose : steps.

Lemma steps_scrapeNseAnnualReports s companyName :
  steps (scrapeNseAnnualReports w s companyName).
Proof.
  unfold scrapeNseAnnualReports, scrapeNseAnnualReports_body.
  steps_auto.
  apply steps_nseReports.
  match goal with H : reportRowsOf _ = _ |- _ => rewrite <- H end.
  apply reportRowsOf_year.
Qed.

#[local] Hint Resolve steps_scrapeBseReports steps_scrapeNseAnnualReports : steps.

Lemma steps_processCompany_body c : steps (processCompany_body w c).
Proof. unfold processCompany_body. steps_auto. Qed.

Lemma steps_processCompany c : steps (processCompany w c).
Proof.
  unfold processCompany. steps_step; [apply steps_processCompany_body|].
  steps_auto.
Qed.

Lemma steps_processAll companies : steps (processAll w companies).
Proof.
  induction companies as [|c rest IH]; simpl.
  - steps_auto.
  - steps_step; [apply steps_processCompany|apply IH].
Qed.

#[local] Hint Resolve steps_processAll : steps.

Lemma steps_acquire : steps (acquire w).
Proof. unfold acquire. steps_auto. Qed.

End Acquisition.

#[global] Hint Resolve steps_statSync steps_writeFileSync steps_unlinkSync
  steps_renameSync steps_mkdirSync steps_createWriteStream steps_pipe
  steps_closeStream steps_downloadFileWithSpeed steps_AdmZip
  steps_extractEntries steps_extractZipToPdf steps_extractAndDownloadReports
  steps_pageClose steps_scrapeBseReports steps_scrapeNseAnnualReports
  steps_processCompany steps_processAll steps_acquire : steps.

(** ** Years handed to the fetcher *)

Section Years.

Context (w : World).

Lemma keeps_bind {A B} P (m : M A) (k : A → M B) :
  keeps P m → (∀ a, keeps P (k a)) → keeps P (bind m k).
Proof.
  intros Hm Hk st H. unfold bind. specialize (Hm st H).
  destruct (m st) as [[a|e|c] st1]; simpl in *; [|done..].
  by apply Hk.
Qed.

Lemma keeps_try_catch {A} P (m : M A) (h : jsstring → M A) :
  keeps P m → (∀ e, keeps P (h e)) → keeps P (try_catch m h).
Proof.
  intros Hm Hh st H. unfold try_catch. specialize (Hm st H).
  destruct (m st) as [[a|e|c] st1]; simpl in *; [done| |done].
  by apply Hh.
Qed.

Lemma keeps_attempt P r : keeps P (attempt r).
Proof. by destruct r; intros st H. Qed.

Lemma keeps_steps {A} (P : state → Prop) (m : M A) :
  (∀ st st', grows st st' → P st → P st') → steps m → keeps P m.
Proof. intros HP Hm st H. eapply HP; [apply Hm|done]. Qed.

Lemma before2009_false y :
  before2009 y = false ↔ ∃ n, JS.parseInt y = Some n ∧ (2009 ≤ n)%Z.
Proof.
  unfold before2009. destruct (JS.parseInt y) as [n|].
  - rewrite Z.ltb_ge. split; [eauto|]. by intros (? & [= <-] & ?).
  - split; [done|]. by intros (? & ? & ?).
Qed.

Lemma acquisitionEvent_fetchOk e : acquisitionEvent e → fetchOk e.
Proof. destruct e; simpl; try done. apply before2009_false. Qed.

Lemma grows_fetchedFrom2009 st st' :
  grows st st' → fetchedFrom2009 st → fetchedFrom2009 st'.
Proof.
  intros (_ & _ & evs & Hc & Hevs) H. unfold fetchedFrom2009. rewrite Hc.
  apply Forall_app. split; [done|].
  eapply Forall_impl; [exact Hevs|]. apply acquisitionEvent_fetchOk.
Qed.

Lemma fetchedFrom2009_event e st :
  fetchOk e → fetchedFrom2009 st → fetchedFrom2009 (with_event e st).
Proof.
  intros He H. apply Forall_app. split; [done|]. by constructor.
Qed.

Lemma keeps_writeFailureReport : keeps fetchedFrom2009 (writeFailureReport w).
Proof.
  intros st H. unfold writeFailureReport. case_bool_decide as Hce.
  - by apply fetchedFrom2009_event.
  - generalize (reportLines (companyErrors st)). intros rows. clear Hce.
    revert st H. apply keeps_try_catch.
    + apply keeps_bind; [|intros _ st' H'; by apply fetchedFrom2009_event].
      unfold writeFile. apply keeps_bind.
      { intros st' H'. by apply fetchedFrom2009_event. }
      intros _. apply keeps_bind; [apply keeps_attempt|].
      by intros _ st' H'.
    + intros e st' H'. by apply fetchedFrom2009_event.
Qed.

Lemma keeps_run : keeps fetchedFrom2009 (run w).
Proof.
  unfold run. apply keeps_try_catch.
  - unfold main. apply keeps_bind.
    { apply keeps_steps; [apply grows_fetchedFrom2009|apply steps_acquire]. }
    intros _. apply keeps_bind; [apply keeps_writeFailureReport|].
    intros _. apply keeps_bind; [apply keeps_attempt|].
    intros _ st H. by apply fetchedFrom2009_event.
  - intros e st H. by apply fetchedFrom2009_event.
Qed.

(** C2. Whatever the two sites list and however the run goes, every reference
    handed to the fetcher, by the BSE scraper or by the NSE scraper, has a
    year text that parses as a number, and that number is at least 2009: rows
    with a non-numeric year or a year below 2009 are dropped before any
    download is attempted. *)
Theorem fetched_years_numeric_from_2009 (d : gmap jsstring file)
    (y u dest : jsstring) :
  Fetch y u dest ∈ console (run w (boot d)).2 →
  ∃ n, JS.parseInt y = Some n ∧ (2009 ≤ n)%Z.
Proof.
  intros Hin.
  assert (H : fetchedFrom2009 (run w (boot d)).2).
  { apply keeps_run. constructor. }
  unfold fetchedFrom2009 in H. rewrite Forall_forall in H.
  exact (H _ Hin).
Qed.

End Years.

(** ** The Fetcher *)

(** The speed lines: they always get printed, one per tick, and touch nothing
    but the console. *)
Lemma speedInterval_run ticks st :
  ∃ st', speedInterval ticks st = (Return tt, st')
    ∧ companyErrors st' = companyErrors st
    ∧ disk st' = disk st
    ∧ report st' = report st
    ∧ console st'
      = console st ++ List.map (fun speed => Stdout (speedLine speed)) ticks.
Proof.
  revert st. induction ticks as [|speed rest IH]; intros st; cbn [speedInterval].
  - exists st. by rewrite app_nil_r.
  - destruct (IH (with_event (Stdout (speedLine speed)) st))
      as (st' & Hrun & Hce & Hd & Hr & Hc).
    exists st'. split; [exact Hrun|]. repeat split; try done.
    rewrite Hc. cbn [console with_event List.map]. by rewrite <- app_assoc.
Qed.

Section Fetcher.

Context (w : World).

(** C10. Whenever a fetch fails, the write stream on the destination has
    already been created: a file is there after the failure, the stream on it
    is still open (the fetcher neither closes nor removes it before
    rejecting), and when the failure is a status other than 200, which comes
    before any byte of the body, the file is empty. *)
Theorem failed_fetch_leaves_file (url dest e : jsstring) (st st' : state) :
  downloadFileWithSpeed w url dest st = (Throw e, st') →
  ∃ f, disk st' !! dest = Some f ∧ wr_open f = true
       ∧ (non200 w url → data f = []).
Proof.
  unfold downloadFileWithSpeed, createWriteStream, pipe, non200, bind.
  destruct (io_fault w (OpOpenStream dest)); [done|]. simpl.
  destruct (https_get w url) as [e'|status body broken].
  - intros [= <- <-]. exists (File [] true). simpl.
    rewrite lookup_insert_eq. by repeat split.
  - destruct (status =? 200) eqn:Es; simpl.
    + apply N.eqb_eq in Es as ->.
      match goal with
      | |- context [speedInterval ?ticks ?s0] =>
          destruct (speedInterval_run ticks s0) as (s1 & -> & _)
      end.
      destruct (io_fault w (OpStreamWrite dest)); [done|]. simpl.
      destruct broken as [e'|]; [|done].
      intros [= <- <-]. exists (File body true). simpl.
      rewrite lookup_insert_eq. by repeat split.
    + intros [= <- <-]. exists (File [] true). simpl.
      rewrite lookup_insert_eq. by repeat split.
Qed.

End Fetcher.

Lemma failed_fetch_leaves_file_witness :
  ∃ f, disk (downloadFileWithSpeed bleak (js "https://x/a.pdf") sampleZip initial).2
         !! sampleZip = Some f
       ∧ wr_open f = true
       ∧ (non200 bleak (js "https://x/a.pdf") → data f = []).
Proof.
  eapply (failed_fetch_leaves_file bleak (js "https://x/a.pdf") sampleZip
            (statusMessage (js "https://x/a.pdf") 404) initial).
  reflexivity.
Defined.

(** ** The Archive Normalizer *)

Section Normalizer.

Context (w : World).

Lemma quiet_ret {A} (a : A) : quiet (ret a).
Proof. by intros st. Qed.

Lemma quiet_throw {A} e : quiet (@throw A e).
Proof. by intros st. Qed.

Lemma quiet_attempt r : quiet (attempt r).
Proof. destruct r; [apply quiet_throw|apply quiet_ret]. Qed.

Lemma quiet_expect {A} (r : answer A) : quiet (expect r).
Proof. destruct r; [apply quiet_ret|apply quiet_throw]. Qed.

Lemma quiet_emit e : quiet (emit e).
Proof. by intros st. Qed.

Lemma quiet_bind {A B} (m : M A) (k : A → M B) :
  quiet m → (∀ a, quiet (k a)) → quiet (bind m k).
Proof.
  intros Hm Hk st. unfold bind. destruct (Hm st) as [Hl Hh].
  destruct (m st) as [[a|e|c] st1]; simpl in *; [|done|by destruct (Hh c)].
  destruct (Hk a st1) as [Hl' Hh']. split; [congruence|done].
Qed.

Lemma quiet_statSync p : quiet (statSync w p).
Proof.
  apply quiet_bind; [apply quiet_attempt|]. intros _ st.
  by destruct (disk st !! p).
Qed.

Lemma quiet_writeFileSync p bytes : quiet (writeFileSync w p bytes).
Proof. apply quiet_bind; [apply quiet_attempt|]. by intros _ st. Qed.

Lemma quiet_unlinkSync p : quiet (unlinkSync w p).
Proof.
  apply quiet_bind; [apply quiet_attempt|]. intros _ st.
  by destruct (disk st !! p).
Qed.

Lemma quiet_AdmZip p : quiet (AdmZip w p).
Proof.
  apply quiet_bind; [apply quiet_emit|]. intros _.
  apply quiet_bind; [apply quiet_attempt|]. intros _ st.
  destruct (disk st !! p); [|done]. by destruct (readZip w _).
Qed.

Lemma quiet_extractEntries folderPath sym yr entries extracted :
  quiet (extractEntries w folderPath sym yr entries extracted).
Proof.
  revert extracted. induction entries as [|entry rest IH]; intros extracted;
    simpl; [apply quiet_ret|].
  destruct (JS.endsWith _ _); [|apply IH].
  apply quiet_bind; [apply quiet_expect|]. intros bytes.
  apply quiet_bind; [apply quiet_writeFileSync|]. intros _.
  apply quiet_bind; [apply quiet_emit|]. intros _. apply IH.
Qed.

Lemma quiet_extractZipToPdf_body zipFilePath folderPath sym yr :
  quiet (extractZipToPdf_body w zipFilePath folderPath sym yr).
Proof.
  apply quiet_bind; [apply quiet_statSync|]. intros size.
  destruct (size <? 1024); [apply quiet_emit|].
  apply quiet_bind; [apply quiet_AdmZip|]. intros entries.
  apply quiet_bind; [apply quiet_extractEntries|]. intros extracted.
  apply quiet_bind; [|intros _; apply quiet_unlinkSync].
  destruct extracted; [apply quiet_ret|apply quiet_emit].
Qed.

(** C6. The normalizer never raises to its caller and never ends the process:
    whatever fails inside it (the archive is missing, does not read as an
    archive, an entry cannot be read or written, the archive cannot be
    deleted) is caught and becomes one message in the ledger entry of the
    symbol.  The ledger must be able to record under the symbol, as it is at
    the call in scrapeNseAnnualReports: scrapeBseReports has recorded under
    the same symbol before. *)
Theorem extractZipToPdf_never_raises
    (zipFilePath folderPath sym yr : jsstring) (st : state) :
  accepts st sym →
  ∃ st', extractZipToPdf w zipFilePath folderPath sym yr st = (Return tt, st')
    ∧ (∀ e st1,
         extractZipToPdf_body w zipFilePath folderPath sym yr st = (Throw e, st1) →
         companyErrors st' =
           recorded sym (Str []) (extractionFailed zipFilePath e) (companyErrors st))
    ∧ (∀ st1,
         extractZipToPdf_body w zipFilePath folderPath sym yr st = (Return tt, st1) →
         companyErrors st' = companyErrors st).
Proof.
  intros Hacc. unfold extractZipToPdf, try_catch.
  destruct (quiet_extractZipToPdf_body zipFilePath folderPath sym yr st)
    as [Hl Hh].
  destruct (extractZipToPdf_body w zipFilePath folderPath sym yr st)
    as [[[]|e|c] st1] eqn:E; simpl in *.
  - exists st1. split; [done|]. split; [done|]. by intros ? [= <-].
  - rewrite addError_run. rewrite decide_True.
    + eexists. split; [done|]. split; [|done].
      intros ? ? [= <- <-]. simpl. by rewrite Hl.
    + unfold accepts in *. by rewrite Hl.
  - by destruct (Hh c).
Qed.

(** C5. An archive smaller than 1024 bytes is never opened and nothing is
    written: the disk is as it was, archive included; and when its size can
    be read the normalizer only prints the warning and returns, with no
    message in the ledger. *)
Theorem small_archive_skipped
    (zipFilePath folderPath sym yr : jsstring) (st : state) (f : file) :
  disk st !! zipFilePath = Some f →
  N.of_nat (length (data f)) < 1024 →
  let r := extractZipToPdf w zipFilePath folderPath sym yr st in
  disk r.2 = disk st
  ∧ (∀ p, OpenArchive p ∉ news st r.2)
  ∧ (io_fault w (OpStat zipFilePath) = None →
     r = (Return tt,
          with_event
            (ConsoleWarn (tooSmall (N.of_nat (length (data f))) zipFilePath)) st)).
Proof.
  intros Hf Hsize.
  unfold extractZipToPdf, extractZipToPdf_body, try_catch, statSync, bind,
    attempt.
  destruct (io_fault w (OpStat zipFilePath)) as [e|]; simpl.
  - rewrite addError_run. case_decide; simpl.
    + split; [done|]. split; [|done]. intros p. unfold news. simpl.
      rewrite drop_app_length. by intros [=]%list_elem_of_singleton.
    + split; [done|]. split; [|done]. intros p. unfold news.
      rewrite drop_all. apply not_elem_of_nil.
  - rewrite Hf. simpl. apply N.ltb_lt in Hsize. rewrite Hsize. simpl.
    split; [done|]. split; [|done]. intros p. unfold news. simpl.
    rewrite drop_app_length. by intros [=]%list_elem_of_singleton.
Qed.

Lemma bind_run {A B} (m : M A) (k : A → M B) st a st1 :
  m st = (Return a, st1) → bind m k st = k a st1.
Proof. intros H. unfold bind. by rewrite H. Qed.

Lemma bind_throws {A B} (m : M A) (k : A → M B) st e st1 :
  m st = (Throw e, st1) → bind m k st = (Throw e, st1).
Proof. intros H. unfold bind. by rewrite H. Qed.

Lemma bind_halts {A B} (m : M A) (k : A → M B) st c st1 :
  m st = (Halt c, st1) → bind m k st = (Halt c, st1).
Proof. intros H. unfold bind. by rewrite H. Qed.

Lemma writeFileSync_run p bytes st :
  io_fault w (OpWriteFile p) = None →
  writeFileSync w p bytes st =
    (Return tt,
     with_disk
       (fun d => <[p := File bytes
                          match disk st !! p with
                          | Some f => wr_open f
                          | None => false
                          end]> d) st).
Proof. intros H. unfold writeFileSync, bind. by rewrite H. Qed.

Lemma unlinkSync_run p f st :
  io_fault w (OpUnlink p) = None → disk st !! p = Some f →
  unlinkSync w p st = (Return tt, with_disk (fun d => delete p d) st).
Proof. intros H Hf. unfold unlinkSync, bind. rewrite H. simpl. by rewrite Hf. Qed.

Lemma extractEntries_runs folderPath sym yr entries :
  Forall extractable entries →
  io_fault w (OpWriteFile (pathJoin folderPath (sym ++ js "_" ++ yr ++ js ".pdf"))) = None →
  ∀ extracted st,
    ∃ b st1, extractEntries w folderPath sym yr entries extracted st = (Return b, st1)
      ∧ ∀ p, is_Some (disk st !! p) → is_Some (disk st1 !! p).
Proof.
  intros Hall Hw. induction Hall as [|entry rest Hentry _ IH];
    intros extracted st; cbn [extractEntries].
  - by exists extracted, st.
  - destruct (JS.endsWith _ _) eqn:Epdf; [|apply IH].
    destruct (Hentry Epdf) as [bytes Hbytes]. rewrite Hbytes.
    erewrite bind_run; [|reflexivity].
    erewrite bind_run; [|by apply writeFileSync_run].
    erewrite bind_run; [|reflexivity].
    match goal with
    | |- context [extractEntries w folderPath sym yr rest true ?s] =>
        destruct (IH true s) as (b & st1 & Hrun & Hkeep)
    end.
    exists b, st1. split; [exact Hrun|].
    intros p Hp. apply Hkeep. cbn [disk with_event with_disk].
    destruct (decide (pathJoin folderPath (sym ++ js "_" ++ yr ++ js ".pdf") = p))
      as [<-|Hne].
    + rewrite lookup_insert_eq. eauto.
    + by rewrite lookup_insert_ne.
Qed.

(** C4, amended. An archive of at least 1 KiB that reads as an archive and
    whose pdf entries are all read and written without error is deleted once
    its entries are processed, whether or not any of them was a pdf, provided
    the deletion itself does not fail.  Besides the size guard, an error while
    the archive is opened also skips the deletion: the archive stays on disk
    and the error goes to the ledger. *)
Theorem archive_deleted_when_extracted
    (zipFilePath folderPath sym yr : jsstring) (st : state) (f : file) :
  disk st !! zipFilePath = Some f →
  1024 ≤ N.of_nat (length (data f)) →
  io_fault w (OpStat zipFilePath) = None →
  io_fault w (OpRead zipFilePath) = None →
  let r := extractZipToPdf w zipFilePath folderPath sym yr st in
  (∀ entries,
     readZip w (data f) = Fine entries →
     Forall extractable entries →
     io_fault w (OpWriteFile (pathJoin folderPath (sym ++ js "_" ++ yr ++ js ".pdf"))) = None →
     io_fault w (OpUnlink zipFilePath) = None →
     r.1 = Return tt ∧ disk r.2 !! zipFilePath = None
     ∧ companyErrors r.2 = companyErrors st)
  ∧ (∀ e,
       readZip w (data f) = Raises e →
       disk r.2 !! zipFilePath = Some f
       ∧ (accepts st sym → has_message r.2 sym (extractionFailed zipFilePath e))).
Proof.
  intros Hf Hsize Hstat Hread r. subst r.
  apply N.ltb_ge in Hsize.
  assert (Hs : statSync w zipFilePath st
               = (Return (N.of_nat (length (data f))), st)).
  { unfold statSync, bind. rewrite Hstat. simpl. by rewrite Hf. }
  set (st0 := with_event (OpenArchive zipFilePath) st).
  assert (Hz : AdmZip w zipFilePath st =
               match readZip w (data f) with
               | Fine entries => (Return entries, st0)
               | Raises e => (Throw e, st0)
               end).
  { unfold AdmZip. erewrite bind_run; [|reflexivity].
    unfold bind. rewrite Hread. simpl. by rewrite Hf. }
  unfold extractZipToPdf, extractZipToPdf_body, try_catch.
  erewrite bind_run; [|exact Hs]. rewrite Hsize.
  split.
  - intros entries Hzip Hall Hwrite Hunlink. rewrite Hzip in Hz.
    erewrite bind_run; [|exact Hz].
    destruct (extractEntries_runs folderPath sym yr entries Hall Hwrite false st0)
      as (b & st1 & Hrun & Hkeep).
    pose proof (quiet_extractEntries folderPath sym yr entries false st0) as [Hl _].
    rewrite Hrun in Hl. cbn [snd] in Hl.
    erewrite bind_run; [|exact Hrun].
    assert (Hthere : is_Some (disk st1 !! zipFilePath)).
    { apply Hkeep. subst st0. cbn [disk with_event]. eauto. }
    destruct Hthere as [f1 Hf1].
    destruct b.
    + erewrite bind_run; [|reflexivity].
      erewrite unlinkSync_run; [|done..]. cbn [fst snd disk with_disk companyErrors].
      by rewrite lookup_delete_eq.
    + erewrite bind_run; [|reflexivity].
      erewrite unlinkSync_run; [|done|exact Hf1].
      cbn [fst snd disk with_disk with_event companyErrors].
      by rewrite lookup_delete_eq.
  - intros e Hzip. rewrite Hzip in Hz.
    rewrite (bind_throws _ _ _ _ _ Hz).
    rewrite addError_run. case_decide as Hacc; cbn [fst snd].
    + split; [done|]. intros _. unfold has_message.
      cbn [companyErrors with_event with_companyErrors].
      unfold recorded. subst st0. cbn [companyErrors with_event].
      destruct (companyErrors st !! sym) as [i|].
      * eexists. rewrite lookup_insert_eq. split; [done|]. cbn [errors].
        apply elem_of_app. right. by apply list_elem_of_singleton.
      * eexists. rewrite lookup_insert_eq. split; [done|]. cbn [errors].
        by apply list_elem_of_singleton.
    + split; [done|]. intros Hacc'. destruct Hacc. exact Hacc'.
Qed.

End Normalizer.

Lemma extractZipToPdf_never_raises_witness :
  ∃ st', extractZipToPdf bleak sampleZip sampleFolder (js "TCS") (js "2012")
           (boot (oneFile sampleZip 2048)) = (Return tt, st')
    ∧ (∀ e st1,
         extractZipToPdf_body bleak sampleZip sampleFolder (js "TCS") (js "2012")
           (boot (oneFile sampleZip 2048)) = (Throw e, st1) →
         companyErrors st' =
           recorded (js "TCS") (Str []) (extractionFailed sampleZip e)
             (companyErrors (boot (oneFile sampleZip 2048))))
    ∧ (∀ st1,
         extractZipToPdf_body bleak sampleZip sampleFolder (js "TCS") (js "2012")
           (boot (oneFile sampleZip 2048)) = (Return tt, st1) →
         companyErrors st' = companyErrors (boot (oneFile sampleZip 2048))).
Proof.
  apply (extractZipToPdf_never_raises bleak sampleZip sampleFolder
           (js "TCS") (js "2012") (boot (oneFile sampleZip 2048))).
  right. vm_compute. reflexivity.
Defined.

Lemma small_archive_skipped_witness :
  let st := boot (oneFile sampleZip 100) in
  let r := extractZipToPdf bleak sampleZip sampleFolder (js "TCS") (js "2012") st in
  disk r.2 = disk st
  ∧ (∀ p, OpenArchive p ∉ news st r.2)
  ∧ (io_fault bleak (OpStat sampleZip) = None →
     r = (Return tt,
          with_event
            (ConsoleWarn
               (tooSmall (N.of_nat (length (data (File (repeat Byte.x00 100) false))))
                  sampleZip)) st)).
Proof.
  apply (small_archive_skipped bleak sampleZip sampleFolder (js "TCS") (js "2012")
           (boot (oneFile sampleZip 100)) (File (repeat Byte.x00 100) false)).
  - vm_compute. reflexivity.
  - vm_compute. reflexivity.
Defined.

(** C4 as stated fails: an archive of 2048 bytes that does not read as an
    archive (bleak reads nothing as one) is still on disk afterwards. *)
Lemma corrupt_archive_stays :
  ¬ archive_always_deleted bleak (boot (oneFile sampleZip 2048))
      sampleZip sampleFolder (js "TCS") (js "2012").
Proof.
  intros H. specialize (H (File (repeat Byte.x00 2048) false)).
  assert (Hgone : disk (extractZipToPdf bleak sampleZip sampleFolder (js "TCS")
                          (js "2012") (boot (oneFile sampleZip 2048))).2
                    !! sampleZip = None).
  { apply H; vm_compute; [reflexivity|discriminate]. }
  vm_compute in Hgone. discriminate.
Qed.

Lemma archive_deleted_when_extracted_witness :
  let w := withArchive [ZipEntry (js "readme.txt") (Raises (js "unused"))] in
  let st := boot (oneFile sampleZip 2048) in
  let r := extractZipToPdf w sampleZip sampleFolder (js "TCS") (js "2012") st in
  r.1 = Return tt ∧ disk r.2 !! sampleZip = None
  ∧ companyErrors r.2 = companyErrors st.
Proof.
  intros w st r.
  refine (proj1 (archive_deleted_when_extracted w sampleZip sampleFolder
                   (js "TCS") (js "2012") st (File (repeat Byte.x00 2048) false)
                   _ _ _ _)
            [ZipEntry (js "readme.txt") (Raises (js "unused"))] _ _ _ _).
  - vm_compute. reflexivity.
  - vm_compute. discriminate.
  - reflexivity.
  - reflexivity.
  - reflexivity.
  - constructor; [|constructor]. intros Hpdf. vm_compute in Hpdf. discriminate.
  - reflexivity.
  - reflexivity.
Defined.

(** ** The failure report *)

Section Report.

Context (w : World).

Lemma writtenMessage_not_success n : writtenMessage n ≠ allHaveReports.
Proof.
  intros H.
  assert (H1 : hd 0 (writtenMessage n) = 87) by reflexivity.
  assert (H2 : hd 0 allHaveReports = 65) by reflexivity.
  rewrite H in H1. rewrite H1 in H2. discriminate.
Qed.

Lemma news_app st evs st' :
  console st' = console st ++ evs → news st st' = evs.
Proof. intros H. unfold news. rewrite H. apply drop_app_length. Qed.


Lemma writeFailureReport_nonempty st :
  companyErrors st ≠ ∅ →
  let rows := reportLines (companyErrors st) in
  writeFailureReport w st =
    match io_fault w (OpWriteWorkbook reportPath) with
    | None =>
        (Return tt,
         with_event (ConsoleLog (writtenMessage (length rows)))
           (with_report (Some rows) (with_event (WriteReport rows) st)))
    | Some e =>
        (Return tt,
         with_event (ConsoleError (failedWriting e))
           (with_event (WriteReport rows) st))
    end.
Proof.
  intros H rows. unfold writeFailureReport.
  rewrite bool_decide_eq_false_2 by done.
  unfold try_catch, writeFile, bind, emit, attempt. fold rows.
  by destruct (io_fault w (OpWriteWorkbook reportPath)).
Qed.


End Report.

(** ** The orchestrator *)

Section Orchestrator.

Context (w : World).

Lemma grows_has_message st st' k m :
  grows st st' → has_message st k m → has_message st' k m.
Proof.
  intros (Hle & _) (i & Hi & Hm).
  destruct (Hle _ _ Hi) as (i' & Hi' & _ & Hpre).
  exists i'. split; [done|]. destruct Hpre as [more ->].
  apply elem_of_app. by left.
Qed.

Lemma grows_accepts st st' k : grows st st' → accepts st k → accepts st' k.
Proof.
  intros (Hle & _) [[i Hi]|Hn]; [|by right].
  destruct (Hle _ _ Hi) as (i' & Hi' & _). left. eauto.
Qed.

Lemma grows_bind_from {A B} x (m : M A) (k : A → M B) st :
  grows x (m st).2 → (∀ a, steps (k a)) → grows x (bind m k st).2.
Proof.
  intros Hm Hk. unfold bind.
  destruct (m st) as [[a|e|c] st1]; cbn [snd] in *; [|done..].
  eapply grows_trans; [exact Hm|apply Hk].
Qed.

Lemma grows_try_catch_from {A} x (m : M A) (h : jsstring → M A) st :
  grows x (m st).2 → (∀ e, steps (h e)) → grows x (try_catch m h st).2.
Proof.
  intros Hm Hh. unfold try_catch.
  destruct (m st) as [[a|e|c] st1]; cbn [snd] in *; [done| |done].
  eapply grows_trans; [exact Hm|apply Hh].
Qed.

Lemma bind_Return_inv {A B} (m : M A) (k : A → M B) st b st' :
  bind m k st = (Return b, st') →
  ∃ a st1, m st = (Return a, st1) ∧ k a st1 = (Return b, st').
Proof.
  unfold bind. destruct (m st) as [[a|e|c] st1]; [eauto|done..].
Qed.

(** The state right after a successful [addError k nm msg]. *)
Lemma addError_accepted k nm msg st :
  accepts st k →
  addError k nm msg st =
    (Return tt,
     with_event (ConsoleError msg) (with_companyErrors (recorded k nm msg) st)).
Proof. intros H. rewrite addError_run. by rewrite decide_True. Qed.

Lemma addError_refused k nm msg st :
  ¬ accepts st k → addError k nm msg st = (Throw pushOfUndefined, st).
Proof. intros H. rewrite addError_run. by rewrite decide_False. Qed.

Lemma recorded_has k nm msg o :
  ∃ i, recorded k nm msg o !! k = Some i ∧ msg ∈ errors i.
Proof.
  unfold recorded. destruct (o !! k) as [i|]; eexists;
    rewrite lookup_insert_eq; (split; [done|]); cbn [errors].
  - apply elem_of_app. right. by apply list_elem_of_singleton.
  - by apply list_elem_of_singleton.
Qed.

Lemma addError_has_message k nm msg st :
  accepts st k → has_message (addError k nm msg st).2 k msg.
Proof.
  intros H. rewrite (addError_accepted _ _ _ _ H). apply recorded_has.
Qed.

(** The first thing scrapeBseReports does is to record and print its status
    message; everything else comes after. *)
Lemma scrapeBseReports_first c st :
  accepts st (symbol c) →
  grows (addError (symbol c) (name c) (tryingBse c) st).2
        (scrapeBseReports w c st).2.
Proof.
  intros H. unfold scrapeBseReports. unfold bind at 1.
  rewrite (addError_accepted _ _ _ _ H). cbn [snd].
  apply steps_try_catch; [|intros e; steps_auto].
  unfold scrapeBseReports_body. steps_auto.
Qed.

Lemma scrapeBseReports_refused c st :
  ¬ accepts st (symbol c) →
  scrapeBseReports w c st = (Throw pushOfUndefined, st).
Proof.
  intros H. unfold scrapeBseReports.
  apply bind_throws. by apply addError_refused.
Qed.

(** When the primary attempt has returned, the ledger has an entry for the
    symbol: this is the state in which main runs the fallback, and with it
    the normalizer. *)
Lemma scrapeBseReports_leaves_entry c st b st1 :
  scrapeBseReports w c st = (Return b, st1) →
  is_Some (companyErrors st1 !! symbol c).
Proof.
  intros Hrun. destruct (decide (accepts st (symbol c))) as [Hacc|Hno].
  - pose proof (scrapeBseReports_first c st Hacc) as Hg.
    rewrite Hrun in Hg. cbn [snd] in Hg.
    destruct (grows_has_message _ _ _ _ Hg
                (addError_has_message _ (name c) (tryingBse c) _ Hacc))
      as (i & Hi & _).
    eauto.
  - by rewrite (scrapeBseReports_refused c st Hno) in Hrun.
Qed.

Lemma processCompany_body_first c st :
  accepts st (symbol c) →
  grows (addError (symbol c) (name c) (tryingBse c) st).2
        (processCompany_body w c st).2.
Proof.
  intros H. unfold processCompany_body.
  apply grows_bind_from; [by apply scrapeBseReports_first|].
  intros a. steps_auto.
Qed.

Lemma processCompany_first c st :
  accepts st (symbol c) →
  grows (addError (symbol c) (name c) (tryingBse c) st).2
        (processCompany w c st).2.
Proof.
  intros H. unfold processCompany.
  apply grows_try_catch_from; [|intros e; steps_auto].
  by apply processCompany_body_first.
Qed.

Lemma processCompany_refused c st :
  ¬ accepts st (symbol c) →
  processCompany w c st = (Throw pushOfUndefined, st).
Proof.
  intros H. unfold processCompany, processCompany_body, try_catch.
  rewrite (bind_throws _ _ _ _ _ (scrapeBseReports_refused c st H)).
  by apply addError_refused.
Qed.

Lemma processCompany_trying c st st' :
  processCompany w c st = (Return tt, st') →
  has_message st' (symbol c) (tryingBse c).
Proof.
  intros Hrun. destruct (decide (accepts st (symbol c))) as [Hacc|Hno].
  - pose proof (processCompany_first c st Hacc) as Hg.
    rewrite Hrun in Hg. cbn [snd] in Hg.
    eapply grows_has_message; [exact Hg|]. by apply addError_has_message.
  - by rewrite (processCompany_refused c st Hno) in Hrun.
Qed.

Lemma processAll_trying companies st st' :
  processAll w companies st = (Return tt, st') →
  ∀ c, c ∈ companies → has_message st' (symbol c) (tryingBse c).
Proof.
  revert st. induction companies as [|c0 rest IH]; intros st Hrun c Hc.
  - by apply elem_of_nil in Hc.
  - cbn [processAll] in Hrun.
    apply bind_Return_inv in Hrun as ([] & st1 & H1 & H2).
    apply elem_of_cons in Hc as [->|Hc].
    + eapply grows_has_message.
      * pose proof (steps_processAll w rest st1) as Hg.
        rewrite H2 in Hg. exact Hg.
      * by eapply processCompany_trying.
    + by eapply IH.
Qed.

Lemma acquire_Return st st' :
  acquire w st = (Return tt, st') →
  processAll w (processed w) st = (Return tt, st').
Proof.
  unfold acquire, processed, bind.
  destruct (launch w); [done|]. cbn [attempt ret].
  destruct (readFile w) as [data|e]; [|done]. cbn [expect ret].
  destruct data as [|first rest]; [done|].
  by destruct (symbolKeyOf (first :: rest)).
Qed.

Lemma has_message_nonempty st k m : has_message st k m → companyErrors st ≠ ∅.
Proof. intros (i & Hi & _) He. rewrite He in Hi. by rewrite lookup_empty in Hi. Qed.

Lemma has_message_line st k m :
  has_message st k m → k ∈ List.map Symbol (reportLines (companyErrors st)).
Proof.
  intros (i & Hi & _). unfold reportLines.
  apply list_elem_of_In, in_map_iff.
  exists (ReportLine k (if truthy (info_name i) then info_name i else Str [])
            (errors i)).
  split; [done|]. apply in_map_iff. exists (k, i). split; [done|].
  apply list_elem_of_In. by apply elem_of_map_to_list.
Qed.

Lemma acquisitionEvent_not_success e :
  acquisitionEvent e → e ≠ ConsoleLog allHaveReports.
Proof.
  intros He ->. destruct He as [[p H]|[f H]];
    apply (f_equal (hd 0)) in H; vm_compute in H; discriminate.
Qed.

Lemma noSuccess_event e st :
  e ≠ ConsoleLog allHaveReports → noSuccess st → noSuccess (with_event e st).
Proof.
  intros He H Hin. apply elem_of_app in Hin as [Hin|Hin]; [done|].
  apply list_elem_of_singleton in Hin. congruence.
Qed.

Lemma grows_noSuccess st st' : grows st st' → noSuccess st → noSuccess st'.
Proof.
  intros (_ & _ & evs & Hc & Hevs) H Hin. rewrite Hc in Hin.
  apply elem_of_app in Hin as [Hin|Hin]; [done|].
  rewrite Forall_forall in Hevs.
  by apply (acquisitionEvent_not_success _ (Hevs _ Hin)).
Qed.

Lemma log_injective m m' : ConsoleLog m = ConsoleLog m' → m = m'.
Proof.
  intros H.
  apply (f_equal (fun ev => match ev with ConsoleLog x => x | _ => [] end)) in H.
  exact H.
Qed.

Lemma allDone_not_success :
  ConsoleLog (js "All done!") ≠ ConsoleLog allHaveReports.
Proof. intros H%log_injective. vm_compute in H. discriminate. Qed.

Lemma written_not_success n :
  ConsoleLog (writtenMessage n) ≠ ConsoleLog allHaveReports.
Proof. intros H%log_injective. by apply writtenMessage_not_success in H. Qed.

Lemma noSuccess_report r st : noSuccess st → noSuccess (with_report r st).
Proof. done. Qed.

(** With a non-empty ledger the end of main never prints the success
    message. *)
Lemma finish_noSuccess st :
  companyErrors st ≠ ∅ → noSuccess st →
  noSuccess ((writeFailureReport w ;; attempt (browser_close w) ;;
              emit (ConsoleLog (js "All done!"))) st).2.
Proof.
  intros Hne H. unfold bind at 1.
  rewrite (writeFailureReport_nonempty w st Hne). cbn zeta.
  destruct (io_fault w (OpWriteWorkbook reportPath)) as [e|];
    unfold bind, attempt; destruct (browser_close w); cbn [throw ret snd emit].
  - apply noSuccess_event; [done|]. by apply noSuccess_event.
  - apply noSuccess_event; [apply allDone_not_success|].
    apply noSuccess_event; [done|]. by apply noSuccess_event.
  - apply noSuccess_event; [apply written_not_success|].
    apply noSuccess_report. by apply noSuccess_event.
  - apply noSuccess_event; [apply allDone_not_success|].
    apply noSuccess_event; [apply written_not_success|].
    apply noSuccess_report. by apply noSuccess_event.
Qed.

Lemma run_noSuccess d : processed w ≠ [] → noSuccess (run w (boot d)).2.
Proof.
  intros Hcs. unfold run, main, try_catch. unfold bind at 1.
  pose proof (steps_acquire w (boot d)) as Hg.
  destruct (acquire w (boot d)) as [[[]|e|c] st1] eqn:Hacq; cbn [snd] in *.
  - assert (Hno : noSuccess st1).
    { eapply grows_noSuccess; [exact Hg|]. apply not_elem_of_nil. }
    assert (Hne : companyErrors st1 ≠ ∅).
    { apply acquire_Return in Hacq.
      destruct (processed w) as [|c0 rest] eqn:Ecs; [done|].
      eapply has_message_nonempty, (processAll_trying _ _ _ Hacq c0).
      apply list_elem_of_here. }
    pose proof (finish_noSuccess st1 Hne Hno) as Hfin.
    destruct ((writeFailureReport w ;; attempt (browser_close w) ;;
               emit (ConsoleLog (js "All done!"))) st1) as [[[]|e|c] st2];
      cbn [snd] in *; [done| |done].
    by apply noSuccess_event.
  - apply noSuccess_event; [done|].
    eapply grows_noSuccess; [exact Hg|]. apply not_elem_of_nil.
  - eapply grows_noSuccess; [exact Hg|]. apply not_elem_of_nil.
Qed.

(** An exception of the iteration of a company under whose symbol the ledger
    can record is caught at the top of the iteration and recorded under the
    symbol. *)
Lemma processCompany_records c st e st1 :
  accepts st (symbol c) →
  processCompany_body w c st = (Throw e, st1) →
  ∃ st2, processCompany w c st = (Return tt, st2)
         ∧ has_message st2 (symbol c) (errorProcessing (symbol c) e).
Proof.
  intros Hacc Hbody.
  assert (Hacc1 : accepts st1 (symbol c)).
  { pose proof (processCompany_body_first c st Hacc) as Hg.
    rewrite Hbody in Hg. eapply grows_accepts; [exact Hg|].
    destruct (addError_has_message (symbol c) (name c) (tryingBse c) st Hacc)
      as (i & Hi & _).
    left. eauto. }
  unfold processCompany, try_catch. rewrite Hbody.
  rewrite (addError_accepted _ _ _ _ Hacc1).
  eexists. split; [reflexivity|]. apply recorded_has.
Qed.

(** So it never leaves the iteration. *)
Lemma processCompany_catches c st :
  accepts st (symbol c) → ∀ e st', processCompany w c st ≠ (Throw e, st').
Proof.
  intros Hacc e st' Hrun.
  destruct (processCompany_body w c st) as [[[]|e0|c0] st1] eqn:Hbody.
  - unfold processCompany, try_catch in Hrun. by rewrite Hbody in Hrun.
  - destruct (processCompany_records c st e0 st1 Hacc Hbody) as (st2 & H2 & _).
    by rewrite H2 in Hrun.
  - unfold processCompany, try_catch in Hrun. by rewrite Hbody in Hrun.
Qed.

(** A worklist without inherited names never makes the loop throw. *)
Lemma processAll_catches companies st :
  Forall (fun c => inherited (symbol c) = false) companies →
  ∀ e st', processAll w companies st ≠ (Throw e, st').
Proof.
  intros Hall. revert st. induction Hall as [|c rest Hc _ IH];
    intros st e st' Hrun; cbn [processAll] in Hrun; [done|].
  unfold bind in Hrun.
  destruct (processCompany w c st) as [[[]|e0|c0] st1] eqn:E.
  - by apply IH in Hrun.
  - by apply (processCompany_catches c st (or_intror Hc)) in E.
  - done.
Qed.

(** X21. For every company under whose symbol the ledger can record (it has
    an entry for the symbol, or the symbol is not a name inherited from
    Object.prototype), the first thing the primary-source attempt does is to
    put its status message, Trying BSE reports for NAME (SYMBOL), in the
    ledger and print it, before any navigation.
    So in every run whose loop over the rows comes to its end, every company
    it processed has an entry with that message; and if it processed at least
    one company, the ledger is not empty, every processed company is a row of
    the lines given to XLSX.writeFile, and the report branch is the one
    taken.  In no run with a company to process is the success message
    printed. *)
Theorem status_message_fills_ledger :
  (∀ c st, accepts st (symbol c) →
     ∃ evs,
       tryingBse c
       = js "Trying BSE reports for " ++ toString (name c)
           ++ js " (" ++ symbol c ++ js ")"
       ∧ news st (scrapeBseReports w c st).2 = ConsoleError (tryingBse c) :: evs
       ∧ has_message (scrapeBseReports w c st).2 (symbol c) (tryingBse c))
  ∧ (∀ d st1, acquire w (boot d) = (Return tt, st1) →
       (∀ c, c ∈ processed w → has_message st1 (symbol c) (tryingBse c))
       ∧ (processed w ≠ [] →
          companyErrors st1 ≠ ∅
          ∧ (∀ c, c ∈ processed w →
                  symbol c ∈ List.map Symbol (reportLines (companyErrors st1)))
          ∧ ∃ tail,
              news st1 (writeFailureReport w st1).2
              = WriteReport (reportLines (companyErrors st1)) :: tail))
  ∧ (∀ d, processed w ≠ [] → noSuccess (run w (boot d)).2).
Proof.
  split; [|split].
  - intros c st Hacc.
    pose proof (scrapeBseReports_first c st Hacc) as Hg.
    pose proof (addError_has_message _ (name c) (tryingBse c) _ Hacc) as Hm.
    destruct Hg as (Hle & Hr & evs & Hc & Hevs).
    exists evs. split; [reflexivity|]. split.
    + apply news_app. rewrite Hc.
      rewrite (addError_accepted _ _ _ _ Hacc).
      cbn [snd console with_event with_companyErrors].
      by rewrite <- app_assoc.
    + eapply grows_has_message; [|exact Hm]. repeat split; eauto.
  - intros d st1 Hacq. apply acquire_Return in Hacq.
    pose proof (processAll_trying _ _ _ Hacq) as Hall.
    split; [exact Hall|]. intros Hcs.
    assert (Hne : companyErrors st1 ≠ ∅).
    { destruct (processed w) as [|c0 rest]; [done|].
      eapply has_message_nonempty, (Hall c0). apply list_elem_of_here. }
    split; [exact Hne|]. split.
    + intros c Hc. eapply has_message_line, Hall, Hc.
    + rewrite (writeFailureReport_nonempty w st1 Hne). cbn zeta.
      destruct (io_fault w (OpWriteWorkbook reportPath)) as [e|]; cbn [snd];
        eexists; apply news_app;
        cbn [console with_event with_report]; by rewrite <- app_assoc.
  - intros d. apply run_noSuccess.
Qed.

End Orchestrator.

Lemma status_message_fills_ledger_witness :
  let c := Company (js "TCS") (Str (js "Tata Consultancy Services")) in
  (∃ evs,
     tryingBse c
     = js "Trying BSE reports for " ++ toString (name c)
         ++ js " (" ++ symbol c ++ js ")"
     ∧ news (boot ∅) (scrapeBseReports oneCompany c (boot ∅)).2
       = ConsoleError (tryingBse c) :: evs
     ∧ has_message (scrapeBseReports oneCompany c (boot ∅)).2 (symbol c)
         (tryingBse c))
  ∧ has_message (acquire oneCompany (boot ∅)).2 (js "TCS") (tryingBse c)
  ∧ companyErrors (acquire oneCompany (boot ∅)).2 ≠ ∅
  ∧ noSuccess (run oneCompany (boot ∅)).2.
Proof.
  intros c.
  destruct (status_message_fills_ledger oneCompany) as (Hfirst & Hloop & Hrun).
  assert (Hacq : acquire oneCompany (boot ∅)
                 = (Return tt, (acquire oneCompany (boot ∅)).2)).
  { vm_compute. reflexivity. }
  assert (Hcs : processed oneCompany ≠ []).
  { vm_compute. discriminate. }
  destruct (Hloop ∅ _ Hacq) as (Hall & Hrest).
  destruct (Hrest Hcs) as (Hne & _).
  split; [|split; [|split]].
  - apply (Hfirst c (boot ∅)). right. vm_compute. reflexivity.
  - apply (Hall c). vm_compute. apply list_elem_of_here.
  - exact Hne.
  - exact (Hrun ∅ Hcs).
Defined.

(** C3 fails on the code for a symbol that names an inherited property.  The
    worksheet lists constructor and then TCS.  For constructor the
    primary-source attempt appends nothing: addError reads the inherited
    Object function off the ledger, makes no entry and raises on push, so
    the attempt ends with that TypeError and the state as it was, no status
    message recorded or printed.  The run then ends with two companies to
    process and an empty ledger; no failure report is written, and the only
    thing printed is the TypeError that main rejects with. *)
Theorem inherited_symbol_records_nothing :
  let ctor := Company (js "constructor") (Str []) in
  processed constructorFirst = [ctor; Company (js "TCS") (Str [])]
  ∧ scrapeBseReports constructorFirst ctor (boot ∅)
    = (Throw pushOfUndefined, boot ∅)
  ∧ ¬ has_message (acquire constructorFirst (boot ∅)).2 (symbol ctor)
        (tryingBse ctor)
  ∧ run constructorFirst (boot ∅)
    = (Return tt, with_event (ConsoleError pushOfUndefined) (boot ∅))
  ∧ companyErrors (run constructorFirst (boot ∅)).2 = ∅
  ∧ report (run constructorFirst (boot ∅)).2 = None.
Proof.
  intros ctor. split; [vm_compute; reflexivity|].
  split; [vm_compute; reflexivity|].
  assert (Hacq : acquire constructorFirst (boot ∅)
                 = (Throw pushOfUndefined, boot ∅))
    by (vm_compute; reflexivity).
  assert (Hrun : run constructorFirst (boot ∅)
                 = (Return tt,
                    with_event (ConsoleError pushOfUndefined) (boot ∅)))
    by (vm_compute; reflexivity).
  split; [|split; [exact Hrun|by rewrite Hrun]].
  rewrite Hacq. intros (i & Hi & _). cbn in Hi. by rewrite lookup_empty in Hi.
Qed.

(** C7 fails on the code for a symbol that names an inherited property.  The
    worksheet lists constructor and then TCS, so two companies are to be
    processed: main rejects with the TypeError that addError raises on the
    first one, at the top of its iteration and again inside the handler of
    that iteration; nothing has been recorded or printed, and the second
    company is never reached. *)
Theorem inherited_symbol_aborts_run :
  processed constructorFirst
    = [Company (js "constructor") (Str []); Company (js "TCS") (Str [])]
  ∧ main constructorFirst initial = (Throw pushOfUndefined, initial).
Proof. split; vm_compute; reflexivity. Qed.

(** The fetcher puts no listener for error events on its write stream, so a
    destination that cannot be opened ends the process in the middle of the
    first company: the second company of [harvest] is never tried. *)
Lemma stream_fault_ends_run :
  (run (setDiskFull harvest) (boot ∅)).1 = Halt 1
  ∧ ∀ m, ConsoleError m ∈ console (run (setDiskFull harvest) (boot ∅)).2 →
         m ≠ tryingBse (Company (js "INFY") (Str [])).
Proof.
  split; [vm_compute; reflexivity|].
  intros m Hin ->. vm_compute in Hin.
  repeat (apply elem_of_cons in Hin as [Hin|Hin]; [discriminate|]).
  by apply elem_of_nil in Hin.
Qed.

(** ** The fallback attempt *)

Section Fallback.

Context (w : World).

Lemma nseReport_throws s nm folder r st e st1 :
  nseReport w s nm folder r st = (Throw e, st1) → ¬ accepts st1 s.
Proof.
  unfold nseReport, try_catch.
  match goal with |- context [bind ?m ?k st] =>
    destruct (bind m k st) as [[[]|e0|c0] st0]; [done| |done] end.
  rewrite addError_run. case_decide; [done|]. by intros [= <- <-].
Qed.

Lemma nseReports_throws s nm folder rows st e st1 :
  nseReports w s nm folder rows st = (Throw e, st1) → ¬ accepts st1 s.
Proof.
  revert st. induction rows as [|r rest IH]; intros st; cbn [nseReports].
  - done.
  - unfold bind.
    destruct (nseReport w s nm folder r st) as [[[]|e0|c0] st0] eqn:E.
    + apply IH.
    + intros [= <- <-]. by eapply nseReport_throws.
    + done.
Qed.

Lemma pageClose_then {A} s (a : A) st :
  (pageClose w s ;; ret a) st =
    match nse_close w s with
    | Some e => (Throw e, st)
    | None => (Return a, st)
    end.
Proof. unfold pageClose, bind. by destruct (nse_close w s). Qed.

Lemma scrapeNse_body_arrived s nm st rows :
  nseArrives w s rows →
  scrapeNseAnnualReports w s nm st =
    try_catch
      (match reportRowsOf rows with
       | [] => pageClose w s ;; ret false
       | _ :: _ =>
           nseReports w s nm (nseFolder w s) (reportRowsOf rows) ;;
           pageClose w s ;; ret true
       end)
      (fun err =>
         addError s nm (nseScrapingFailed s err) ;;
         try_catch
           (bytes <- expect (nse_screenshot w s) ;;
            writeFileSync w (screenshotPath s) bytes)
           (fun _ => ret tt) ;;
         pageClose w s ;; ret false)
      (with_event (Navigate (nseUrl s)) st).
Proof.
  intros (Hnew & Hpanel & Hmk & Hrows).
  unfold scrapeNseAnnualReports, scrapeNseAnnualReports_body, mkdirSync.
  rewrite Hnew, Hpanel, Hmk, Hrows. reflexivity.
Qed.

(** Whenever main got false from both scrapers it records the closing
    message under the symbol. *)
Lemma processCompany_no_reports c st st1 st2 :
  scrapeBseReports w c st = (Return false, st1) →
  scrapeNseAnnualReports w (symbol c) (name c) st1 = (Return false, st2) →
  ∃ st3, processCompany w c st = (Return tt, st3)
         ∧ has_message st3 (symbol c) (noReports (symbol c)).
Proof.
  intros Hbse Hnse.
  assert (Hacc : accepts st (symbol c)).
  { destruct (decide (accepts st (symbol c))) as [H|H]; [done|].
    by rewrite (scrapeBseReports_refused w c st H) in Hbse. }
  assert (Hacc2 : accepts st2 (symbol c)).
  { pose proof (steps_scrapeNseAnnualReports w (symbol c) (name c) st1) as Hg2.
    rewrite Hnse in Hg2.
    pose proof (steps_scrapeBseReports w c st) as Hg1. rewrite Hbse in Hg1.
    eapply grows_accepts; [exact Hg2|]. by eapply grows_accepts. }
  unfold processCompany, processCompany_body, try_catch.
  erewrite bind_run; [|exact Hbse]. cbv iota.
  erewrite bind_run; [|exact Hnse]. cbv iota.
  rewrite (addError_accepted _ _ _ _ Hacc2).
  eexists. split; [reflexivity|]. apply recorded_has.
Qed.

Lemma noHalt_bind {A B} (m : M A) (k : A → M B) :
  noHalt m → (∀ a, noHalt (k a)) → noHalt (bind m k).
Proof.
  intros Hm Hk st c. unfold bind. specialize (Hm st).
  destruct (m st) as [[a|e|c0] st1]; cbn [fst] in *; [apply Hk|done|].
  by destruct (Hm c0).
Qed.

Lemma noHalt_try_catch {A} (m : M A) (h : jsstring → M A) :
  noHalt m → (∀ e, noHalt (h e)) → noHalt (try_catch m h).
Proof.
  intros Hm Hh st c. unfold try_catch. specialize (Hm st).
  destruct (m st) as [[a|e|c0] st1]; cbn [fst] in *; [done|apply Hh|].
  by destruct (Hm c0).
Qed.

Lemma noHalt_quiet {A} (m : M A) : quiet m → noHalt m.
Proof. intros H st c. by destruct (H st) as [_ Hh]. Qed.

Lemma noHalt_addError k nm msg : noHalt (addError k nm msg).
Proof. intros st c. rewrite addError_run. by case_decide. Qed.

Lemma noHalt_extractZipToPdf zipFilePath folderPath sym yr :
  noHalt (extractZipToPdf w zipFilePath folderPath sym yr).
Proof.
  apply noHalt_try_catch.
  - apply noHalt_quiet, quiet_extractZipToPdf_body.
  - intros e. apply noHalt_addError.
Qed.

Lemma noHalt_renameSync p q : noHalt (renameSync w p q).
Proof.
  intros st c. unfold renameSync, bind, attempt.
  destruct (io_fault w (OpRename p q)); [done|]. cbn [ret].
  by destruct (disk st !! p).
Qed.

Lemma noHalt_downloadFileWithSpeed u dest :
  streamsOpen w dest → noHalt (downloadFileWithSpeed w u dest).
Proof.
  intros [Hopen Hwrite] st c.
  unfold downloadFileWithSpeed, createWriteStream, pipe, bind.
  rewrite Hopen. destruct (https_get w u) as [e|status body broken]; [done|].
  destruct (negb (status =? 200)); [done|].
  match goal with
  | |- context [speedInterval ?ticks ?s0] =>
      destruct (speedInterval_run ticks s0) as (s1 & -> & _)
  end.
  rewrite Hwrite. by destruct broken.
Qed.

Lemma noHalt_nseReport s nm r :
  streamsOpen w (nseDest w s r) → noHalt (nseReport w s nm (nseFolder w s) r).
Proof.
  intros Hs. unfold nseReport. apply noHalt_try_catch.
  - apply noHalt_bind; [by intros st c|]. intros _.
    apply noHalt_bind.
    { unfold fetch. apply noHalt_bind; [by intros st c|]. intros _.
      by apply noHalt_downloadFileWithSpeed. }
    intros _. destruct (type r); [apply noHalt_extractZipToPdf|].
    destruct (JS.eqb _ _); [by intros st c|apply noHalt_renameSync].
  - intros e. apply noHalt_addError.
Qed.

Lemma nseReport_returns s nm r st :
  accepts st s → before2009 (year r) = false →
  streamsOpen w (nseDest w s r) →
  ∃ st1, nseReport w s nm (nseFolder w s) r st = (Return tt, st1)
         ∧ accepts st1 s.
Proof.
  intros Hacc Hyear Hs.
  pose proof (steps_nseReport w s nm (nseFolder w s) r Hyear st) as Hg.
  pose proof (noHalt_nseReport s nm r Hs st) as Hh.
  destruct (nseReport w s nm (nseFolder w s) r st) as [[[]|e|c] st1] eqn:E;
    cbn [fst snd] in *.
  - exists st1. split; [done|]. by eapply grows_accepts.
  - apply nseReport_throws in E. destruct E. by eapply grows_accepts.
  - by destruct (Hh c).
Qed.

Lemma nseReports_returns s nm rows st :
  accepts st s →
  Forall (fun r => before2009 (year r) = false) rows →
  Forall (fun r => streamsOpen w (nseDest w s r)) rows →
  ∃ st1, nseReports w s nm (nseFolder w s) rows st = (Return tt, st1).
Proof.
  intros Hacc Hyears. revert st Hacc.
  induction Hyears as [|r rest Hr _ IH]; intros st Hacc Hs; cbn [nseReports].
  - by exists st.
  - apply Forall_cons in Hs as [Hs Hrest].
    destruct (nseReport_returns s nm r st Hacc Hr Hs) as (st0 & Hrun & Hacc0).
    rewrite (bind_run _ _ _ _ _ Hrun). by apply IH.
Qed.

(** C1, amended.  Once the NSE table is there and as long as the page closes:
    when the table lists no reference of 2009 or later the scraper returns
    false (the attempt is not Satisfied) having recorded nothing, no error of
    its own, and main, with false from both scrapers, records that no reports
    were found for the symbol; when at least one of the listed references
    downloads, the ledger can record under the symbol and no write stream
    fails, the scraper returns true. *)
Theorem fallback_outcome :
  (∀ s nm st rows,
     nseArrives w s rows → nse_close w s = None →
     reportRowsOf rows = [] →
     scrapeNseAnnualReports w s nm st
       = (Return false, with_event (Navigate (nseUrl s)) st))
  ∧ (∀ s nm st rows,
       nseArrives w s rows → nse_close w s = None →
       accepts st s →
       Forall (fun r => streamsOpen w (nseDest w s r)) (reportRowsOf rows) →
       (∃ r, r ∈ reportRowsOf rows ∧ downloads w (url r) (nseDest w s r)) →
       ∃ st', scrapeNseAnnualReports w s nm st = (Return true, st'))
  ∧ (∀ c st st1 st2,
       scrapeBseReports w c st = (Return false, st1) →
       scrapeNseAnnualReports w (symbol c) (name c) st1 = (Return false, st2) →
       ∃ st3, processCompany w c st = (Return tt, st3)
              ∧ has_message st3 (symbol c) (noReports (symbol c))).
Proof.
  split; [|split; [|apply processCompany_no_reports]].
  - intros s nm st rows Harr Hclose Hnone.
    rewrite (scrapeNse_body_arrived s nm st rows Harr). unfold try_catch.
    by rewrite Hnone, pageClose_then, Hclose.
  - intros s nm st rows Harr Hclose Hacc Hstreams (r & Hr & _).
    rewrite (scrapeNse_body_arrived s nm st rows Harr). unfold try_catch.
    pose proof (reportRowsOf_year rows) as Hyears.
    destruct (reportRowsOf rows) as [|r0 rs] eqn:Erows;
      [by apply elem_of_nil in Hr|].
    destruct (nseReports_returns s nm (r0 :: rs)
                (with_event (Navigate (nseUrl s)) st))
      as (st1 & Hloop); [by destruct Hacc; [left|right]|done..|].
    rewrite (bind_run _ _ _ _ _ Hloop), pageClose_then, Hclose. eauto.
Qed.

End Fallback.

(** C1 as stated fails both ways.  With no reference listed the scraper
    returns false although the claim counts that case as Satisfied; with one
    reference listed whose download answers 404 it returns true although no
    reference downloaded. *)
Lemma fallback_claim_fails :
  ¬ fallback_satisfied_as_stated (withNse [] notFound) (js "TCS")
      (Str (js "Tata Consultancy Services")) initial
  ∧ ¬ fallback_satisfied_as_stated (withNse [row2012] notFound) (js "TCS")
        (Str (js "Tata Consultancy Services")) initial.
Proof.
  split; intros H.
  - destruct (H [] false
                (scrapeNseAnnualReports (withNse [] notFound) (js "TCS")
                   (Str (js "Tata Consultancy Services")) initial).2)
      as [_ Hback].
    + repeat split; reflexivity.
    + vm_compute. reflexivity.
    + assert (Habs : false = true) by (apply Hback; right; reflexivity).
      discriminate.
  - destruct (H [row2012] true
                (scrapeNseAnnualReports (withNse [row2012] notFound) (js "TCS")
                   (Str (js "Tata Consultancy Services")) initial).2)
      as [Hfwd _].
    + repeat split; reflexivity.
    + vm_compute. reflexivity.
    + destruct (Hfwd eq_refl) as [(r & Hr & Hd)|Hnil].
      * specialize (Hd initial).
        change (reportRowsOf [row2012]) with
          [ReportRow (JS.trim (js " 2012 "))
             (js "https://nsearchives.nseindia.com/annual_reports/AR_TCS_2012.pdf")
             pdf] in Hr.
        apply list_elem_of_singleton in Hr. subst r.
        vm_compute in Hd. discriminate.
      * vm_compute in Hnil. discriminate.
Qed.

Lemma fallback_outcome_witness :
  let w := withNse [row2012] served in
  nseArrives w (js "TCS") [row2012]
  ∧ (∃ x, x ∈ reportRowsOf [row2012] ∧ downloads w (url x) (nseDest w (js "TCS") x))
  ∧ (∃ st', scrapeNseAnnualReports w (js "TCS") (Str (js "Tata")) initial
            = (Return true, st'))
  ∧ scrapeNseAnnualReports (withNse [] notFound) (js "TCS") (Str (js "Tata")) initial
    = (Return false, with_event (Navigate (nseUrl (js "TCS"))) initial).
Proof.
  intros w.
  assert (Harr : nseArrives w (js "TCS") [row2012]) by (repeat split; reflexivity).
  assert (Hdl : ∃ x, x ∈ reportRowsOf [row2012]
                     ∧ downloads w (url x) (nseDest w (js "TCS") x)).
  { exists (ReportRow (JS.trim (js " 2012 "))
              (js "https://nsearchives.nseindia.com/annual_reports/AR_TCS_2012.pdf")
              pdf).
    split; [apply list_elem_of_here|].
    intros st. vm_compute. reflexivity. }
  split; [exact Harr|]. split; [exact Hdl|]. split.
  - apply (proj1 (proj2 (fallback_outcome w)) (js "TCS") (Str (js "Tata"))
             initial [row2012] Harr); [reflexivity|by right| |exact Hdl].
    repeat constructor.
  - apply (proj1 (fallback_outcome (withNse [] notFound))
             (js "TCS") (Str (js "Tata")) initial []).
    + repeat split; reflexivity.
    + reflexivity.
    + reflexivity.
Defined.


(** The year test is not idle: in this run the NSE report of 2012 reaches the
    fetcher. *)
Example harvest_fetches :
  Fetch (js "2012")
        (js "https://nsearchives.nseindia.com/annual_reports/AR_TCS_2012.pdf")
        (js "/app/NSE_AnnualReports/TCS/TCS_2012.pdf")
    ∈ console (run harvest (boot ∅)).2.
Proof. vm_compute. do 5 apply list_elem_of_further. apply list_elem_of_here. Qed.

Lemma fetched_years_numeric_from_2009_witness :
  ∃ n, JS.parseInt (js "2012") = Some n ∧ (2009 ≤ n)%Z.
Proof.
  apply (fetched_years_numeric_from_2009 harvest ∅ (js "2012")
           (js "https://nsearchives.nseindia.com/annual_reports/AR_TCS_2012.pdf")
           (js "/app/NSE_AnnualReports/TCS/TCS_2012.pdf")).
  vm_compute. do 5 apply list_elem_of_further. apply list_elem_of_here.
Defined.

(* ===================================================================== *)
(** * Further properties of the code *)
(* ===================================================================== *)

(** ** File names and symbols *)

Lemma JS_eqb_eq a b : JS.eqb a b = true ↔ a = b.
Proof.
  revert b. induction a as [|x a IH]; intros [|y b]; simpl; try done.
  rewrite andb_true_iff, N.eqb_eq, IH. split; [by intros [-> ->]|].
  by intros [= -> ->].
Qed.

Lemma JS_eqb_neq a b : JS.eqb a b = false ↔ a ≠ b.
Proof.
  rewrite <- JS_eqb_eq. by destruct (JS.eqb a b).
Qed.

(** X1. A sanitized file name holds none of the nine characters the regular
    expression removes, and neither starts nor ends with white space. *)
Theorem sanitize_safe (s : jsstring) :
  Forall safeUnit (sanitize s)
  ∧ clean_head (sanitize s)
  ∧ clean_head (rev (sanitize s)).
Proof.
  unfold sanitize. split; [|split].
  - apply Forall_trim, stripUnsafe_safe.
  - apply trimEnd_clean, trimStart_clean.
  - unfold JS.trim, JS.trimEnd. rewrite rev_involutive. apply trimStart_clean.
Qed.

(** X2. Every company that the loop of main processes comes from a row whose
    symbol cell is truthy, and its symbol is that cell as a string, trimmed:
    it is not empty and has no white space around it. *)
Theorem worklist_symbols (symbolKey : jsstring) (data : list sheetRow)
    (c : company) :
  c ∈ worklist symbolKey data →
  symbol c ≠ [] ∧ JS.trim (symbol c) = symbol c
  ∧ ∃ row, row ∈ data ∧ truthy (cellOf symbolKey row) = true
           ∧ symbol c = JS.trim (toString (cellOf symbolKey row)).
Proof.
  unfold worklist. intros Hc.
  apply list_elem_of_omap in Hc as (row & Hrow & Hco).
  unfold companyOf in Hco.
  destruct (truthy (cellOf symbolKey row)) eqn:Et; [|done].
  destruct (JS.eqb (JS.trim (toString (cellOf symbolKey row))) []) eqn:Ee;
    [done|].
  injection Hco as <-. cbn [symbol].
  split; [by apply JS_eqb_neq|]. split; [apply trim_idem|].
  exists row. by repeat split.
Qed.

Lemma worklist_symbols_witness :
  let c := Company (js "TCS") (Str (js "Tata Consultancy Services")) in
  symbol c ≠ [] ∧ JS.trim (symbol c) = symbol c
  ∧ ∃ row,
      row ∈ [ [ (js "Symbol", Str (js "  TCS "));
                (js "Company Name", Str (js "Tata Consultancy Services")) ] ]
      ∧ truthy (cellOf (js "Symbol") row) = true
      ∧ symbol c = JS.trim (toString (cellOf (js "Symbol") row)).
Proof.
  apply (worklist_symbols (js "Symbol")
           [ [ (js "Symbol", Str (js "  TCS "));
               (js "Company Name", Str (js "Tata Consultancy Services")) ] ]).
  vm_compute. apply list_elem_of_here.
Defined.

(** ** The failure report *)

(** X3. The failure report has exactly one line per entry of the ledger: no
    symbol comes twice, however often it stood in the worksheet, a symbol has
    a line exactly when it has an entry, and the line carries all the messages
    of the entry in the order they were recorded. *)
Theorem reportLines_one_per_entry (ce : gmap jsstring info) :
  NoDup (List.map Symbol (reportLines ce))
  ∧ length (reportLines ce) = size ce
  ∧ ∀ k msgs,
      (∃ nm, ReportLine k nm msgs ∈ reportLines ce)
      ↔ ∃ i, ce !! k = Some i ∧ errors i = msgs.
Proof.
  unfold reportLines. split; [|split].
  - rewrite map_map.
    assert (Heq : List.map
              (fun x : jsstring * info =>
                 Symbol (let '(s, i) := x in
                         ReportLine s
                           (if truthy (info_name i) then info_name i else Str [])
                           (errors i)))
              (map_to_list ce)
            = (map_to_list ce).*1).
    { apply map_ext. by intros [k i]. }
    rewrite Heq. apply NoDup_fst_map_to_list.
  - rewrite length_map. apply length_map_to_list.
  - intros k msgs. split.
    + intros [nm Hin]. apply list_elem_of_In, in_map_iff in Hin
        as ([k' i] & Heq & Hin).
      injection Heq as -> _ <-.
      apply list_elem_of_In, elem_of_map_to_list in Hin. eauto.
    + intros (i & Hi & <-). eexists.
      apply list_elem_of_In, in_map_iff. exists (k, i). split; [reflexivity|].
      apply list_elem_of_In. by apply elem_of_map_to_list.
Qed.

(** ** The Fetcher *)

Section FetcherMore.

Context (w : World).

Lemma downloadFileWithSpeed_resolves (u dest : jsstring) (st : state) :
  (∀ st', downloadFileWithSpeed w u dest st = (Return tt, st') →
     streamsOpen w dest
     ∧ ∃ body, https_get w u = Responds 200 body None
         ∧ disk st' = <[dest := File body false]> (disk st)
         ∧ companyErrors st' = companyErrors st
         ∧ report st' = report st
         ∧ console st'
           = console st
               ++ List.map (fun speed => Stdout (speedLine speed)) (speed_ticks w u)
               ++ [Stdout downloadComplete])
  ∧ (streamsOpen w dest →
     ∀ body, https_get w u = Responds 200 body None →
       ∃ st', downloadFileWithSpeed w u dest st = (Return tt, st')).
Proof.
  unfold downloadFileWithSpeed, createWriteStream, pipe, streamsOpen, bind.
  split.
  - intros st'.
    destruct (io_fault w (OpOpenStream dest)); [done|]. cbn [fst snd].
    destruct (https_get w u) as [e|status body broken]; [done|].
    destruct (status =? 200) eqn:Es; cbn [negb]; [|done].
    apply N.eqb_eq in Es as ->.
    match goal with
    | |- context [speedInterval ?ticks ?s0] =>
        destruct (speedInterval_run ticks s0) as (s1 & -> & Hce & Hd & Hr & Hc)
    end.
    destruct (io_fault w (OpStreamWrite dest)); [done|].
    destruct broken as [e|]; [done|]. cbn.
    intros [= <-]. split; [done|]. exists body. split; [done|].
    cbn. rewrite !lookup_insert_eq. cbn [data].
    rewrite Hce, Hd, Hr, Hc. cbn.
    rewrite !insert_insert_eq. by rewrite <- app_assoc.
  - intros [-> Hwrite] body ->. cbn.
    match goal with
    | |- context [speedInterval ?ticks ?s0] =>
        destruct (speedInterval_run ticks s0) as (s1 & -> & _)
    end.
    rewrite Hwrite. cbn. eauto.
Qed.

(** X4. A fetch resolves exactly when the write stream opens and takes the
    body and the url answers 200 with a response that ends without error.
    Then the destination holds exactly the body, with the stream closed;
    whatever was at the destination before is replaced, what it has printed
    is the speed line of every full second the transfer lasted followed by
    the completion line, and the ledger and the report are untouched. *)
Theorem download_resolves_exactly (u dest : jsstring) (st : state) :
  (∀ st', downloadFileWithSpeed w u dest st = (Return tt, st') →
     streamsOpen w dest
     ∧ ∃ body, https_get w u = Responds 200 body None
         ∧ disk st' = <[dest := File body false]> (disk st)
         ∧ companyErrors st' = companyErrors st
         ∧ report st' = report st
         ∧ console st'
           = console st
               ++ List.map (fun speed => Stdout (speedLine speed)) (speed_ticks w u)
               ++ [Stdout downloadComplete])
  ∧ (streamsOpen w dest →
     ∀ body, https_get w u = Responds 200 body None →
       ∃ st', downloadFileWithSpeed w u dest st = (Return tt, st')).
Proof. apply downloadFileWithSpeed_resolves. Qed.

(** X5. Whatever its outcome, a fetch touches no file but its destination,
    and neither the ledger nor the report. *)
Theorem download_touches_only_dest (u dest : jsstring) (st : state) :
  let st' := (downloadFileWithSpeed w u dest st).2 in
  (∀ p, p ≠ dest → disk st' !! p = disk st !! p)
  ∧ companyErrors st' = companyErrors st
  ∧ report st' = report st.
Proof.
  unfold downloadFileWithSpeed, createWriteStream, pipe, closeStream, bind.
  destruct (io_fault w (OpOpenStream dest)); [done|]. cbn [fst snd].
  destruct (https_get w u) as [e|status body broken].
  { cbn. split; [|done]. intros p Hp. by rewrite lookup_insert_ne. }
  destruct (negb (status =? 200)).
  { cbn. split; [|done]. intros p Hp. by rewrite lookup_insert_ne. }
  match goal with
  | |- context [speedInterval ?ticks ?s0] =>
      destruct (speedInterval_run ticks s0) as (s1 & -> & Hce & Hd & Hr & _)
  end.
  cbn in Hce, Hd, Hr.
  destruct (io_fault w (OpStreamWrite dest)).
  { cbn. rewrite Hce, Hd, Hr. split; [|done].
    intros p Hp. by rewrite lookup_insert_ne. }
  destruct broken as [e|]; cbn; rewrite Hce, Hd, Hr.
  - split; [|done]. intros p Hp. by rewrite !lookup_insert_ne.
  - rewrite !lookup_insert_eq. split; [|done].
    intros p Hp. by rewrite !lookup_insert_ne.
Qed.

Lemma download_Return_downloads u dest st st' :
  downloadFileWithSpeed w u dest st = (Return tt, st') → downloads w u dest.
Proof.
  intros Hrun st0.
  destruct (downloadFileWithSpeed_resolves u dest st) as [Hfwd _].
  destruct (Hfwd st' Hrun) as (Hs & body & Hget & _).
  destruct (downloadFileWithSpeed_resolves u dest st0) as [_ Hback].
  destruct (Hback Hs body Hget) as [st0' H0]. by rewrite H0.
Qed.

End FetcherMore.

Lemma download_resolves_exactly_witness :
  let u := js "https://nsearchives.nseindia.com/annual_reports/AR_TCS_2012.pdf" in
  ∃ st', downloadFileWithSpeed slowTransfer u sampleZip initial = (Return tt, st')
    ∧ disk st' !! sampleZip = Some (File (repeat Byte.x50 2048) false)
    ∧ console st'
      = [ Stdout ([13] ++ js "Downloading: 1.50 KB/s");
          Stdout ([13] ++ js "Downloading: 0.38 KB/s");
          Stdout ([13] ++ js "Downloading: 0.13 KB/s");
          Stdout downloadComplete ].
Proof.
  intros u.
  assert (Hs : streamsOpen slowTransfer sampleZip) by (split; reflexivity).
  destruct (download_resolves_exactly slowTransfer u sampleZip initial)
    as [Hfwd Hback].
  destruct (Hback Hs (repeat Byte.x50 2048) eq_refl) as [st' Hrun].
  destruct (Hfwd st' Hrun) as (_ & body & Hget & Hd & _ & _ & Hc).
  injection Hget as <-.
  exists st'. split; [exact Hrun|]. split.
  - rewrite Hd. apply lookup_insert_eq.
  - rewrite Hc. reflexivity.
Defined.

Lemma download_touches_only_dest_witness :
  let st := boot (oneFile sampleFolder 8) in
  disk (downloadFileWithSpeed bleak (js "https://x/a.pdf") sampleZip st).2
    !! sampleFolder = disk st !! sampleFolder.
Proof.
  intros st.
  apply (proj1 (download_touches_only_dest bleak (js "https://x/a.pdf")
                  sampleZip st)).
  intros H. vm_compute in H. discriminate.
Defined.

(** ** The Archive Normalizer *)

Section NormalizerMore.

Context (w : World).

Lemma lastPdf_found entries found :
  lastPdf entries found =
    match lastPdf entries None with
    | Some b => Some b
    | None => found
    end.
Proof.
  revert found. induction entries as [|entry rest IH]; intros found;
    cbn [lastPdf]; [done|].
  destruct (isPdf entry); [|apply IH].
  destruct (getData entry) as [bytes|e]; [|apply IH].
  rewrite (IH (Some bytes)). by destruct (lastPdf rest None).
Qed.

Lemma extractEntries_last folderPath sym yr entries :
  let out := pathJoin folderPath (sym ++ js "_" ++ yr ++ js ".pdf") in
  Forall extractable entries →
  io_fault w (OpWriteFile out) = None →
  ∀ extracted st,
    ∃ st1,
      extractEntries w folderPath sym yr entries extracted st
        = (Return (extracted || existsb isPdf entries), st1)
      ∧ (∀ p, p ≠ out → disk st1 !! p = disk st !! p)
      ∧ match lastPdf entries None with
        | Some b => ∃ f, disk st1 !! out = Some f ∧ data f = b
        | None => disk st1 !! out = disk st !! out
        end.
Proof.
  intros out Hall Hw. induction Hall as [|entry rest Hentry _ IH];
    intros extracted st; cbn [extractEntries existsb lastPdf].
  - exists st. by rewrite orb_false_r.
  - fold (isPdf entry). destruct (isPdf entry) eqn:Epdf.
    + destruct (Hentry Epdf) as [bytes Hbytes]. rewrite Hbytes.
      erewrite bind_run; [|reflexivity].
      erewrite bind_run; [|by apply writeFileSync_run].
      erewrite bind_run; [|reflexivity].
      match goal with
      | |- context [extractEntries w folderPath sym yr rest true ?s] =>
          destruct (IH true s) as (st1 & Hrun & Hframe & Hlast)
      end.
      exists st1. rewrite orb_true_r. split; [exact Hrun|]. split.
      * intros p Hp. rewrite (Hframe p Hp). cbn [disk with_event with_disk].
        by rewrite lookup_insert_ne.
      * rewrite lastPdf_found. destruct (lastPdf rest None) as [b|]; [done|].
        rewrite Hlast. cbn [disk with_event with_disk].
        rewrite lookup_insert_eq. eauto.
    + apply IH.
Qed.

Lemma extractZipToPdf_extracts
    (zipFilePath folderPath sym yr : jsstring) (st : state) (f : file)
    (entries : list zipEntry) :
  let out := pathJoin folderPath (sym ++ js "_" ++ yr ++ js ".pdf") in
  disk st !! zipFilePath = Some f →
  1024 ≤ N.of_nat (length (data f)) →
  readZip w (data f) = Fine entries →
  Forall extractable entries →
  (∀ op, io_fault w op = None) →
  out ≠ zipFilePath →
  ∃ st',
    extractZipToPdf w zipFilePath folderPath sym yr st = (Return tt, st')
    ∧ disk st' !! zipFilePath = None
    ∧ (∀ p, p ≠ out → p ≠ zipFilePath → disk st' !! p = disk st !! p)
    ∧ companyErrors st' = companyErrors st
    ∧ match lastPdf entries None with
      | Some b => ∃ f', disk st' !! out = Some f' ∧ data f' = b
      | None =>
          disk st' !! out = disk st !! out
          ∧ ConsoleWarn (js "No PDF found inside ZIP: " ++ zipFilePath)
              ∈ news st st'
      end.
Proof.
  intros out Hf Hsize Hzip Hall Hio Hne.
  apply N.ltb_ge in Hsize.
  assert (Hs : statSync w zipFilePath st
               = (Return (N.of_nat (length (data f))), st)).
  { unfold statSync, bind. rewrite Hio. simpl. by rewrite Hf. }
  set (st0 := with_event (OpenArchive zipFilePath) st).
  assert (Hz : AdmZip w zipFilePath st = (Return entries, st0)).
  { unfold AdmZip. erewrite bind_run; [|reflexivity].
    unfold bind. rewrite Hio. simpl. by rewrite Hf, Hzip. }
  destruct (extractEntries_last folderPath sym yr entries Hall (Hio _) false st0)
    as (st1 & Hrun & Hframe & Hlast).
  pose proof (quiet_extractEntries w folderPath sym yr entries false st0)
    as [Hl _].
  rewrite Hrun in Hl. cbn [snd orb] in Hl, Hrun.
  pose proof (steps_extractEntries w folderPath sym yr entries false st0)
    as (_ & _ & evs & Hcons & _).
  rewrite Hrun in Hcons. cbn [snd] in Hcons.
  assert (Hf1 : disk st1 !! zipFilePath = Some f).
  { rewrite Hframe by done. exact Hf. }
  unfold extractZipToPdf, extractZipToPdf_body, try_catch.
  erewrite bind_run; [|exact Hs]. rewrite Hsize.
  erewrite bind_run; [|exact Hz].
  erewrite bind_run; [|exact Hrun].
  assert (Hnone : lastPdf entries None = None → existsb isPdf entries = false).
  { clear -Hall. induction Hall as [|entry rest Hentry _ IH];
      cbn [lastPdf existsb]; [done|].
    destruct (isPdf entry) eqn:E; [|apply IH].
    destruct (Hentry E) as [bytes ->]. intros H.
    rewrite lastPdf_found in H. by destruct (lastPdf rest None). }
  destruct (existsb isPdf entries) eqn:Eany.
  - erewrite bind_run; [|reflexivity].
    erewrite unlinkSync_run; [|apply Hio|exact Hf1].
    eexists. split; [reflexivity|]. cbn [disk with_disk companyErrors].
    split; [apply lookup_delete_eq|]. split; [|split; [exact Hl|]].
    + intros p Hp Hpz. rewrite lookup_delete_ne by done. by apply Hframe.
    + destruct (lastPdf entries None) as [b|].
      * rewrite lookup_delete_ne by done. exact Hlast.
      * by specialize (Hnone eq_refl).
  - erewrite bind_run; [|reflexivity].
    erewrite unlinkSync_run; [|apply Hio|exact Hf1].
    eexists. split; [reflexivity|].
    cbn [disk with_disk with_event companyErrors].
    split; [apply lookup_delete_eq|]. split; [|split; [exact Hl|]].
    + intros p Hp Hpz. rewrite lookup_delete_ne by done. by apply Hframe.
    + destruct (lastPdf entries None) as [b|] eqn:El.
      * rewrite lookup_delete_ne by done. exact Hlast.
      * rewrite lookup_delete_ne by done. split; [exact Hlast|].
        unfold news. cbn [console with_disk with_event]. rewrite Hcons.
        subst st0. cbn [console with_event].
        rewrite <- !app_assoc, drop_app_length.
        apply elem_of_app. right. apply elem_of_app. right.
        apply list_elem_of_here.
Qed.

(** X6. When an archive of at least 1 KiB reads as an archive and nothing
    fails on disk, the normalizer returns with the archive deleted and the
    ledger untouched; the file SYMBOL_YEAR.pdf of the folder then holds the
    data of the last pdf entry (an entry counts as pdf when its name ends in
    .pdf in any letter case; earlier pdf entries are overwritten), and with no
    pdf entry that file is as before and the warning is printed.  No other
    file changes. *)
Theorem extractZipToPdf_last_pdf_wins
    (zipFilePath folderPath sym yr : jsstring) (st : state) (f : file)
    (entries : list zipEntry) :
  let out := pathJoin folderPath (sym ++ js "_" ++ yr ++ js ".pdf") in
  disk st !! zipFilePath = Some f →
  1024 ≤ N.of_nat (length (data f)) →
  readZip w (data f) = Fine entries →
  Forall extractable entries →
  (∀ op, io_fault w op = None) →
  out ≠ zipFilePath →
  ∃ st',
    extractZipToPdf w zipFilePath folderPath sym yr st = (Return tt, st')
    ∧ disk st' !! zipFilePath = None
    ∧ (∀ p, p ≠ out → p ≠ zipFilePath → disk st' !! p = disk st !! p)
    ∧ companyErrors st' = companyErrors st
    ∧ match lastPdf entries None with
      | Some b => ∃ f', disk st' !! out = Some f' ∧ data f' = b
      | None =>
          disk st' !! out = disk st !! out
          ∧ ConsoleWarn (js "No PDF found inside ZIP: " ++ zipFilePath)
              ∈ news st st'
      end.
Proof. apply extractZipToPdf_extracts. Qed.

End NormalizerMore.

Lemma extractZipToPdf_last_pdf_wins_witness :
  let entries :=
    [ ZipEntry (js "a/first.pdf") (Fine [Byte.x01]);
      ZipEntry (js "notes.txt") (Fine [Byte.x02]);
      ZipEntry (js "REPORT.PDF") (Fine [Byte.x03]) ] in
  let out := pathJoin sampleFolder (js "TCS" ++ js "_" ++ js "2012" ++ js ".pdf") in
  ∃ st',
    extractZipToPdf (withArchive entries) sampleZip sampleFolder (js "TCS")
      (js "2012") (boot (oneFile sampleZip 2048)) = (Return tt, st')
    ∧ disk st' !! sampleZip = None
    ∧ ∃ f', disk st' !! out = Some f' ∧ data f' = [Byte.x03].
Proof.
  intros entries out.
  destruct (extractZipToPdf_last_pdf_wins (withArchive entries) sampleZip
              sampleFolder (js "TCS") (js "2012") (boot (oneFile sampleZip 2048))
              (File (repeat Byte.x00 2048) false) entries)
    as (st' & Hrun & Hgone & _ & _ & Hlast).
  - vm_compute. reflexivity.
  - vm_compute. discriminate.
  - reflexivity.
  - repeat constructor; intros _; by eexists.
  - reflexivity.
  - intros H. vm_compute in H. discriminate.
  - exists st'. split; [exact Hrun|]. split; [exact Hgone|]. exact Hlast.
Defined.

(** ** Effects of the acquisition, for any relation that its steps respect *)

Section Effects.

Context (w : World).
Variable R : state → state → Prop.
Variable ok : event → Prop.

Hypothesis R_refl : ∀ st, R st st.
Hypothesis R_trans : ∀ st1 st2 st3, R st1 st2 → R st2 st3 → R st1 st3.
Hypothesis R_disk : ∀ f st, R st (with_disk f st).
Hypothesis R_event : ∀ e st, ok e → R st (with_event e st).
Hypothesis R_record :
  ∀ k nm msg st,
    R st (with_event (ConsoleError msg)
            (with_companyErrors (recorded k nm msg) st)).
Hypothesis ok_other : ∀ e, (∀ y u d, e ≠ Fetch y u d) → ok e.

Lemma follows_ret {A} (a : A) : follows R (ret a).
Proof. intros st. apply R_refl. Qed.

Lemma follows_throw {A} e : follows R (@throw A e).
Proof. intros st. apply R_refl. Qed.

Lemma follows_halt {A} c : follows R (@halt A c).
Proof. intros st. apply R_refl. Qed.

Lemma follows_attempt r : follows R (attempt r).
Proof. destruct r; [apply follows_throw|apply follows_ret]. Qed.

Lemma follows_expect {A} (r : answer A) : follows R (expect r).
Proof. destruct r; [apply follows_ret|apply follows_throw]. Qed.

Lemma follows_bind {A B} (m : M A) (k : A → M B) :
  follows R m → (∀ a, follows R (k a)) → follows R (bind m k).
Proof.
  intros Hm Hk st. unfold bind. specialize (Hm st).
  destruct (m st) as [[a|e|c] st1]; cbn [snd] in *; [|done..].
  eapply R_trans; [exact Hm|apply Hk].
Qed.

Lemma follows_try_catch {A} (m : M A) (h : jsstring → M A) :
  follows R m → (∀ e, follows R (h e)) → follows R (try_catch m h).
Proof.
  intros Hm Hh st. unfold try_catch. specialize (Hm st).
  destruct (m st) as [[a|e|c] st1]; cbn [snd] in *; [done| |done].
  eapply R_trans; [exact Hm|apply Hh].
Qed.

Lemma follows_emit e : (∀ y u d, e ≠ Fetch y u d) → follows R (emit e).
Proof. intros He st. apply R_event, ok_other, He. Qed.

Lemma follows_addError k nm msg : follows R (addError k nm msg).
Proof.
  intros st. rewrite addError_run. case_decide; [apply R_record|apply R_refl].
Qed.

Lemma follows_disk_step {A} (m : M A) :
  (∀ st, (m st).2 = st ∨ ∃ f, (m st).2 = with_disk f st) → follows R m.
Proof. intros H st. destruct (H st) as [->|[f ->]]; auto. Qed.

Lemma follows_statSync p : follows R (statSync w p).
Proof.
  apply follows_bind; [apply follows_attempt|]. intros _.
  apply follows_disk_step. intros st. left. by destruct (disk st !! p).
Qed.

Lemma follows_writeFileSync p bytes : follows R (writeFileSync w p bytes).
Proof.
  apply follows_bind; [apply follows_attempt|]. intros _.
  apply follows_disk_step. intros st. right. by eexists.
Qed.

Lemma follows_unlinkSync p : follows R (unlinkSync w p).
Proof.
  apply follows_bind; [apply follows_attempt|]. intros _.
  apply follows_disk_step. intros st.
  destruct (disk st !! p); [right; by eexists|by left].
Qed.

Lemma follows_renameSync p q : follows R (renameSync w p q).
Proof.
  apply follows_bind; [apply follows_attempt|]. intros _.
  apply follows_disk_step. intros st.
  destruct (disk st !! p); [right; by eexists|by left].
Qed.

Lemma follows_mkdirSync p : follows R (mkdirSync w p).
Proof. apply follows_attempt. Qed.

Lemma follows_speedInterval ticks : follows R (speedInterval ticks).
Proof.
  induction ticks as [|speed rest IH]; cbn [speedInterval];
    [apply follows_ret|].
  apply follows_bind; [by apply follows_emit|]. by intros _.
Qed.

Lemma follows_downloadFileWithSpeed u dest :
  follows R (downloadFileWithSpeed w u dest).
Proof.
  unfold downloadFileWithSpeed. apply follows_bind.
  { unfold createWriteStream. destruct (io_fault w _); [apply follows_halt|].
    apply follows_disk_step. intros st. right. by eexists. }
  intros _. destruct (https_get w u) as [e|status body broken];
    [apply follows_throw|].
  destruct (negb _); [apply follows_throw|].
  apply follows_bind; [apply follows_speedInterval|]. intros _.
  apply follows_bind.
  { unfold pipe. destruct (io_fault w _); [apply follows_halt|].
    apply follows_disk_step. intros st. right. by eexists. }
  intros _. destruct broken; [apply follows_throw|].
  apply follows_bind; [by apply follows_emit|]. intros _.
  apply follows_disk_step. intros st. right. by eexists.
Qed.

Lemma follows_fetch y u d : ok (Fetch y u d) → follows R (fetch w y u d).
Proof.
  intros H. apply follows_bind; [intros st; by apply R_event|].
  intros _. apply follows_downloadFileWithSpeed.
Qed.

Lemma follows_AdmZip p : follows R (AdmZip w p).
Proof.
  apply follows_bind; [by apply follows_emit|]. intros _.
  apply follows_bind; [apply follows_attempt|]. intros _.
  apply follows_disk_step. intros st. left.
  destruct (disk st !! p); [|done]. by destruct (readZip w _).
Qed.

Lemma follows_extractEntries folderPath sym yr entries extracted :
  follows R (extractEntries w folderPath sym yr entries extracted).
Proof.
  revert extracted. induction entries as [|entry rest IH]; intros extracted;
    cbn [extractEntries]; [apply follows_ret|].
  destruct (JS.endsWith _ _); [|apply IH].
  apply follows_bind; [apply follows_expect|]. intros bytes.
  apply follows_bind; [apply follows_writeFileSync|]. intros _.
  apply follows_bind; [by apply follows_emit|]. intros _. apply IH.
Qed.

Lemma follows_extractZipToPdf zipFilePath folderPath sym yr :
  follows R (extractZipToPdf w zipFilePath folderPath sym yr).
Proof.
  apply follows_try_catch; [|intros e; apply follows_addError].
  apply follows_bind; [apply follows_statSync|]. intros size.
  destruct (size <? 1024); [by apply follows_emit|].
  apply follows_bind; [apply follows_AdmZip|]. intros entries.
  apply follows_bind; [apply follows_extractEntries|]. intros extracted.
  apply follows_bind; [|intros _; apply follows_unlinkSync].
  destruct extracted; [apply follows_ret|by apply follows_emit].
Qed.

Lemma follows_bseRow c row d :
  bseGrant w ok c → follows R (bseRow w c (bseFolder w (symbol c)) row d).
Proof.
  intros Hg. unfold bseRow. destruct row as [cells|e]; [|apply follows_throw].
  destruct cells as [|cell0 [|cell1 more]]; try apply follows_ret.
  destruct (before2009 _) eqn:Ey; [apply follows_ret|].
  destruct (anchor cell1) as [u|]; [|apply follows_ret].
  destruct (JS.startsWith _ u) eqn:Eu; cbn [negb]; [|apply follows_ret].
  apply follows_try_catch.
  - apply follows_bind; [apply follows_addError|]. intros _.
    apply follows_bind; [|intros _; apply follows_ret].
    apply follows_fetch, Hg; [apply trim_idem|done..].
  - intros e. apply follows_bind; [apply follows_addError|].
    intros _. apply follows_ret.
Qed.

Lemma follows_bseRows c rows d :
  bseGrant w ok c → follows R (bseRows w c (bseFolder w (symbol c)) rows d).
Proof.
  intros Hg. revert d. induction rows as [|row rest IH]; intros d;
    cbn [bseRows]; [apply follows_ret|].
  apply follows_bind; [by apply follows_bseRow|apply IH].
Qed.

Lemma follows_extractAndDownloadReports c table d :
  bseGrant w ok c →
  follows R (extractAndDownloadReports w c (bseFolder w (symbol c)) table d).
Proof.
  intros Hg. apply follows_bind; [apply follows_expect|].
  intros rows. by apply follows_bseRows.
Qed.

Lemma follows_scrapeBseReports c :
  bseGrant w ok c → follows R (scrapeBseReports w c).
Proof.
  intros Hg. apply follows_bind; [apply follows_addError|]. intros _.
  apply follows_try_catch.
  - apply follows_bind; [by apply follows_emit|]. intros _.
    apply follows_bind; [apply follows_attempt|]. intros _.
    apply follows_bind; [apply follows_mkdirSync|]. intros _.
    apply follows_bind; [by apply follows_extractAndDownloadReports|].
    intros d1. destruct (bse_next w (symbol c));
      [apply follows_ret|apply follows_throw|
       by apply follows_extractAndDownloadReports].
  - intros e. apply follows_bind; [apply follows_addError|].
    intros _. apply follows_ret.
Qed.

Lemma follows_nseReport s nm r :
  ok (Fetch (year r) (url r) (nseDest w s r)) →
  follows R (nseReport w s nm (nseFolder w s) r).
Proof.
  intros Hg. apply follows_try_catch; [|intros e; apply follows_addError].
  apply follows_bind; [by apply follows_emit|]. intros _.
  apply follows_bind; [by apply follows_fetch|]. intros _.
  destruct (type r); cbv beta iota zeta; [apply follows_extractZipToPdf|].
  destruct (JS.eqb _ _); [apply follows_ret|apply follows_renameSync].
Qed.

Lemma follows_nseReports s nm rows :
  Forall (fun r => ok (Fetch (year r) (url r) (nseDest w s r))) rows →
  follows R (nseReports w s nm (nseFolder w s) rows).
Proof.
  induction 1 as [|r rest Hr _ IH]; cbn [nseReports]; [apply follows_ret|].
  apply follows_bind; [by apply follows_nseReport|]. intros _. apply IH.
Qed.

Lemma follows_scrapeNseAnnualReports s nm :
  nseGrant w ok s → follows R (scrapeNseAnnualReports w s nm).
Proof.
  intros Hg. apply follows_bind; [apply follows_attempt|]. intros _.
  apply follows_try_catch.
  - apply follows_bind; [by apply follows_emit|]. intros _.
    apply follows_bind; [apply follows_attempt|]. intros _.
    apply follows_bind; [apply follows_mkdirSync|]. intros _.
    apply follows_bind; [apply follows_expect|]. intros rows.
    assert (Hall : Forall (fun r => ok (Fetch (year r) (url r) (nseDest w s r)))
                     (reportRowsOf rows)).
    { apply Forall_forall. intros r Hr.
      apply list_elem_of_omap in Hr as (row & _ & Hrow). by eapply Hg. }
    destruct (reportRowsOf rows) as [|r0 rs].
    + apply follows_bind; [apply follows_attempt|]. intros _. apply follows_ret.
    + apply follows_bind; [by apply follows_nseReports|]. intros _.
      apply follows_bind; [apply follows_attempt|]. intros _. apply follows_ret.
  - intros e. apply follows_bind; [apply follows_addError|]. intros _.
    apply follows_bind.
    { apply follows_try_catch; [|intros _; apply follows_ret].
      apply follows_bind; [apply follows_expect|]. intros bytes.
      apply follows_writeFileSync. }
    intros _. apply follows_bind; [apply follows_attempt|].
    intros _. apply follows_ret.
Qed.

Lemma follows_processCompany c :
  bseGrant w ok c → nseGrant w ok (symbol c) → follows R (processCompany w c).
Proof.
  intros Hb Hn. apply follows_try_catch; [|intros e; apply follows_addError].
  apply follows_bind; [by apply follows_scrapeBseReports|]. intros b.
  destruct b; [apply follows_ret|].
  apply follows_bind; [by apply follows_scrapeNseAnnualReports|]. intros b.
  destruct b; [apply follows_ret|apply follows_addError].
Qed.

Lemma follows_processAll companies :
  (∀ c, c ∈ companies → bseGrant w ok c ∧ nseGrant w ok (symbol c)) →
  follows R (processAll w companies).
Proof.
  induction companies as [|c rest IH]; intros Hg; cbn [processAll];
    [apply follows_ret|].
  apply follows_bind.
  - apply follows_processCompany; apply Hg, list_elem_of_here.
  - intros _. apply IH. intros c' Hc'. apply Hg. by apply list_elem_of_further.
Qed.

Lemma follows_bind_ret {A B} (a : A) (k : A → M B) :
  follows R (k a) → follows R (bind (ret a) k).
Proof. intros H st. apply H. Qed.

Lemma follows_acquire :
  (∀ c, c ∈ processed w → bseGrant w ok c ∧ nseGrant w ok (symbol c)) →
  follows R (acquire w).
Proof.
  unfold processed, acquire. intros Hg.
  apply follows_bind; [apply follows_attempt|]. intros _.
  destruct (readFile w) as [data|e]; cbn [expect].
  - apply follows_bind_ret. destruct data as [|first rest].
    + apply follows_bind; [by apply follows_emit|]. intros _. apply follows_halt.
    + destruct (symbolKeyOf (first :: rest)) as [k|].
      * by apply follows_processAll.
      * apply follows_bind; [by apply follows_emit|]. intros _.
        apply follows_halt.
  - intros st. apply R_refl.
Qed.

Hypothesis R_report : ∀ r st, R st (with_report r st).

Lemma follows_writeFailureReport : follows R (writeFailureReport w).
Proof.
  intros st. unfold writeFailureReport. case_bool_decide as Hce.
  - apply R_event, ok_other. by intros y u d.
  - generalize (reportLines (companyErrors st)). intros rows. clear Hce.
    revert st. apply follows_try_catch.
    + apply follows_bind; [|intros _; by apply follows_emit].
      apply follows_bind; [by apply follows_emit|]. intros _.
      apply follows_bind; [apply follows_attempt|]. intros _ st.
      apply R_report.
    + intros e. by apply follows_emit.
Qed.

Lemma follows_run :
  (∀ c, c ∈ processed w → bseGrant w ok c ∧ nseGrant w ok (symbol c)) →
  follows R (run w).
Proof.
  intros Hg. apply follows_try_catch; [|intros e; by apply follows_emit].
  apply follows_bind; [by apply follows_acquire|]. intros _.
  apply follows_bind; [apply follows_writeFailureReport|]. intros _.
  apply follows_bind; [apply follows_attempt|]. intros _.
  by apply follows_emit.
Qed.

End Effects.

(** ** Invariants of a whole run *)

Section RunInvariants.

Context (w : World).

Lemma recorded_lookup_eq k nm msg o :
  recorded k nm msg o !! k =
    Some (match o !! k with
          | Some i => Info (info_name i) (errors i ++ [msg])
          | None => Info nm [msg]
          end).
Proof. unfold recorded. destruct (o !! k); apply lookup_insert_eq. Qed.

Lemma recorded_lookup_ne k nm msg o k' :
  k ≠ k' → recorded k nm msg o !! k' = o !! k'.
Proof. intros H. unfold recorded. destruct (o !! k); by apply lookup_insert_ne. Qed.

(** X7. In every run the ledger only grows: an entry, once made, stays, keeps
    the company name it was made with (later messages recorded with another
    name, such as the empty name the normalizer passes, do not change it),
    and keeps its earlier messages in front, in order. *)
Theorem run_ledger_append_only (st : state) :
  ledger_le (companyErrors st) (companyErrors (run w st).2).
Proof.
  apply (follows_run w
           (fun st st' => ledger_le (companyErrors st) (companyErrors st'))
           (fun _ => True)); try done.
  - intros st0. apply ledger_le_refl.
  - intros st1 st2 st3. apply ledger_le_trans.
  - intros f st0. apply ledger_le_refl.
  - intros e st0 _. apply ledger_le_refl.
  - intros k nm msg st0. apply recorded_le.
  - intros r st0. apply ledger_le_refl.
Qed.

(** X8. In every run, every message that is in the ledger has also been
    printed with console.error. *)
Theorem run_ledger_printed (dsk : gmap jsstring file) :
  ledgerPrinted (run w (boot dsk)).2.
Proof.
  assert (H : ledgerPrinted (boot dsk) → ledgerPrinted (run w (boot dsk)).2).
  { apply (follows_run w (fun st st' => ledgerPrinted st → ledgerPrinted st')
             (fun _ => True)); try done.
    - intros st1 st2 st3 H12 H23 H1. auto.
    - intros e st0 _ H k i m Hi Hm. apply elem_of_app. left. by eapply H.
    - intros k nm msg st0 H k' i' m Hi Hm.
      cbn [companyErrors console with_event with_companyErrors] in *.
      apply elem_of_app.
      destruct (decide (k = k')) as [<-|Hne].
      + rewrite recorded_lookup_eq in Hi. injection Hi as <-.
        destruct (companyErrors st0 !! k) as [i|] eqn:Ek; cbn [errors] in Hm.
        * apply elem_of_app in Hm as [Hm|Hm]; [left; by eapply H|].
          apply list_elem_of_singleton in Hm as ->. right.
          apply list_elem_of_here.
        * apply list_elem_of_singleton in Hm as ->. right.
          apply list_elem_of_here.
      + rewrite recorded_lookup_ne in Hi by done. left. by eapply H. }
  apply H. intros k i m Hi. cbn [boot companyErrors] in Hi.
  by rewrite lookup_empty in Hi.
Qed.

End RunInvariants.

Section Downloads.

Context (w : World).

Lemma reportRowOf_shape row r :
  reportRowOf row = Some r →
  JS.trim (year r) = year r ∧ typeOfUrl (url r) = Some (type r)
  ∧ ∃ y, toYr row = Some y ∧ year r = JS.trim y ∧ link row = Some (url r).
Proof.
  unfold reportRowOf. intros H.
  destruct (link row) as [u|]; [|done].
  destruct (toYr row) as [y|]; cbn [fmap option_fmap option_map] in H; [|done].
  destruct (typeOfUrl u) as [t|] eqn:Et; [|done].
  destruct (_ && _) in H; [|done]. injection H as <-. cbn [year url type].
  split; [apply trim_idem|]. split; [done|]. by exists y.
Qed.

(** X9. In every run, every download that is started belongs to a company of
    the worklist.  Its year text is trimmed.  From the BSE scraper its url
    starts with https:// and its destination is the sanitized name
    SYMBOL_YEAR.pdf in the BSE folder of the symbol; from the NSE scraper the
    url ends, in any letter case, in .zip or .pdf and the destination is the
    sanitized name SYMBOL_YEAR with that extension in the NSE folder of the
    symbol. *)
Theorem run_downloads_shape (dsk : gmap jsstring file) (y u d : jsstring) :
  Fetch y u d ∈ console (run w (boot dsk)).2 →
  ∃ c, c ∈ processed w
       ∧ (bseShape w c (Fetch y u d) ∨ nseShape w (symbol c) (Fetch y u d)).
Proof.
  intros Hin.
  assert (H : prints (fetchShape w) (boot dsk) (run w (boot dsk)).2).
  { apply (follows_run w (prints (fetchShape w)) (fetchShape w)).
    - intros st. exists []. by rewrite app_nil_r.
    - intros st1 st2 st3 (e1 & H1 & F1) (e2 & H2 & F2).
      exists (e1 ++ e2). split; [by rewrite H2, H1, app_assoc|].
      by apply Forall_app.
    - intros f st. exists []. by rewrite app_nil_r.
    - intros e st He. exists [e]. split; [done|]. by constructor.
    - intros k nm msg st. exists [ConsoleError msg]. split; [done|].
      by constructor.
    - intros e He. destruct e as [m|m|m|m|u0|y0 u0 d0|p0|ls]; try done.
      by destruct (He y0 u0 d0).
    - intros r st. exists []. by rewrite app_nil_r.
    - intros c Hc. split.
      + intros y0 u0 Hy _ Hu. exists c. split; [done|]. left. by repeat split.
      + intros row r Hr. apply reportRowOf_shape in Hr as (Hy & Ht & _).
        exists c. split; [done|]. right. split; [done|].
        exists (type r). split; [done|]. reflexivity. }
  destruct H as (evs & Hc & Hall). cbn [boot console app] in Hc.
  rewrite Hc in Hin. rewrite Forall_forall in Hall.
  exact (Hall _ Hin).
Qed.

End Downloads.

Lemma run_downloads_shape_witness :
  ∃ c, c ∈ processed harvest
       ∧ (bseShape harvest c
            (Fetch (js "2012")
               (js "https://nsearchives.nseindia.com/annual_reports/AR_TCS_2012.pdf")
               (js "/app/NSE_AnnualReports/TCS/TCS_2012.pdf"))
          ∨ nseShape harvest (symbol c)
              (Fetch (js "2012")
                 (js "https://nsearchives.nseindia.com/annual_reports/AR_TCS_2012.pdf")
                 (js "/app/NSE_AnnualReports/TCS/TCS_2012.pdf"))).
Proof.
  apply (run_downloads_shape harvest ∅).
  vm_compute. do 5 apply list_elem_of_further. apply list_elem_of_here.
Defined.

(** ** The primary source *)

Section Primary.

Context (w : World).

Lemma grows_console st st' :
  grows st st' → ∃ evs, console st' = console st ++ evs.
Proof. intros (_ & _ & evs & H & _). eauto. Qed.

Lemma news_later st s1 st' e :
  grows st s1 → grows s1 st' → e ∈ news s1 st' → e ∈ news st st'.
Proof.
  intros [e1 H1]%grows_console [e2 H2]%grows_console Hin.
  rewrite (news_app s1 e2 st' H2) in Hin.
  rewrite (news_app st (e1 ++ e2) st'); [|by rewrite H2, H1, app_assoc].
  apply elem_of_app. by right.
Qed.

Lemma news_earlier st s1 st' e :
  grows st s1 → grows s1 st' → e ∈ news st s1 → e ∈ news st st'.
Proof.
  intros [e1 H1]%grows_console [e2 H2]%grows_console Hin.
  rewrite (news_app st e1 s1 H1) in Hin.
  rewrite (news_app st (e1 ++ e2) st'); [|by rewrite H2, H1, app_assoc].
  apply elem_of_app. by left.
Qed.

Lemma grows_of {A} (m : M A) st o st' :
  steps m → m st = (o, st') → grows st st'.
Proof. intros Hm H. specialize (Hm st). by rewrite H in Hm. Qed.

Lemma fetch_Return y u dest st st' :
  fetch w y u dest st = (Return tt, st') →
  Fetch y u dest ∈ news st st' ∧ downloads w u dest.
Proof.
  unfold fetch. intros H.
  apply bind_Return_inv in H as ([] & s1 & H1 & H2).
  injection H1 as <-.
  destruct (downloadFileWithSpeed_resolves w u dest
              (with_event (Fetch y u dest) st)) as [Hfwd _].
  destruct (Hfwd st' H2) as (_ & body & _ & _ & _ & _ & Hc).
  split; [|by eapply download_Return_downloads].
  rewrite (news_app st
             (Fetch y u dest
                :: List.map (fun speed => Stdout (speedLine speed)) (speed_ticks w u)
                ++ [Stdout downloadComplete])).
  - apply list_elem_of_here.
  - rewrite Hc. cbn [console with_event]. by rewrite <- app_assoc.
Qed.

Lemma bseRow_true c folder row d st st' :
  bseRow w c folder row d st = (Return true, st') →
  d = true ∨ ∃ y u dest, Fetch y u dest ∈ news st st' ∧ downloads w u dest.
Proof.
  unfold bseRow. destruct row as [cells|e]; [|done].
  destruct cells as [|cell0 [|cell1 more]]; try (intros [= ->]; by left).
  destruct (before2009 _) eqn:Ey; [intros [= ->]; by left|].
  destruct (anchor cell1) as [u|]; [|intros [= ->]; by left].
  destruct (negb _); [intros [= ->]; by left|].
  unfold try_catch.
  match goal with |- context [bind ?m ?k st] =>
    destruct (bind m k st) as [[b|e|c0] s1] eqn:Ebody end; [| |done].
  - intros [= -> ->].
    apply bind_Return_inv in Ebody as ([] & sa & Ha & Hb).
    apply bind_Return_inv in Hb as ([] & sb & Hf & Hr).
    injection Hr as <-.
    pose proof (fetch_Return _ _ _ _ _ Hf) as [Hin Hd]. right. do 3 eexists.
    split; [|exact Hd].
    eapply news_later; [| |exact Hin].
    + eapply grows_of; [apply steps_addError|exact Ha].
    + eapply grows_of; [|exact Hf]. by apply steps_fetch.
  - intros H. apply bind_Return_inv in H as ([] & sa & _ & Hr).
    injection Hr as -> _. by left.
Qed.

Lemma bseRows_true c folder rows d st st' :
  bseRows w c folder rows d st = (Return true, st') →
  d = true ∨ ∃ y u dest, Fetch y u dest ∈ news st st' ∧ downloads w u dest.
Proof.
  revert d st. induction rows as [|row rest IH]; intros d st; cbn [bseRows].
  - intros [= ->]. by left.
  - intros H. apply bind_Return_inv in H as (d1 & s1 & Hrow & Hrest).
    assert (G1 : grows st s1) by (eapply grows_of; [apply steps_bseRow|exact Hrow]).
    assert (G2 : grows s1 st') by (eapply grows_of; [apply steps_bseRows|exact Hrest]).
    destruct (IH _ _ Hrest) as [->|(y & u & dest & Hin & Hd)].
    + destruct (bseRow_true _ _ _ _ _ _ Hrow) as [->|(y & u & dest & Hin & Hd)];
        [by left|].
      right. exists y, u, dest. split; [|done]. by eapply news_earlier.
    + right. exists y, u, dest. split; [|done]. by eapply news_later.
Qed.

Lemma extractAndDownloadReports_true c folder table d st st' :
  extractAndDownloadReports w c folder table d st = (Return true, st') →
  d = true ∨ ∃ y u dest, Fetch y u dest ∈ news st st' ∧ downloads w u dest.
Proof.
  unfold extractAndDownloadReports. intros H.
  apply bind_Return_inv in H as (rows & s1 & Hrows & Hloop).
  destruct table as [rows'|e]; [|done]. injection Hrows as <- <-.
  by eapply bseRows_true.
Qed.

(** X10. When the primary attempt returns true, at least one of the
    downloads it started has resolved: the result of scrapeBseReports is
    never true without a report that was fetched. *)
Theorem scrapeBseReports_true (c : company) (st st' : state) :
  scrapeBseReports w c st = (Return true, st') →
  ∃ y u dest, Fetch y u dest ∈ news st st' ∧ downloads w u dest.
Proof.
  unfold scrapeBseReports. intros H.
  apply bind_Return_inv in H as ([] & sa & Ha & Htry).
  assert (Ga : grows st sa) by (eapply grows_of; [apply steps_addError|exact Ha]).
  unfold try_catch in Htry.
  destruct (scrapeBseReports_body w c sa) as [[b|e|c0] sb] eqn:Ebody;
    [| |done].
  - injection Htry as -> ->. unfold scrapeBseReports_body in Ebody.
    apply bind_Return_inv in Ebody as ([] & s1 & H1 & Ebody).
    apply bind_Return_inv in Ebody as ([] & s2 & H2 & Ebody).
    apply bind_Return_inv in Ebody as ([] & s3 & H3 & Ebody).
    apply bind_Return_inv in Ebody as (d1 & s4 & H4 & Ebody).
    assert (G1 : grows sa s1).
    { eapply grows_of; [|exact H1]. by apply steps_emit. }
    assert (G2 : grows s1 s2) by (eapply grows_of; [apply steps_attempt|exact H2]).
    assert (G3 : grows s2 s3) by (eapply grows_of; [apply steps_mkdirSync|exact H3]).
    assert (G4 : grows s3 s4).
    { eapply grows_of; [apply steps_extractAndDownloadReports|exact H4]. }
    assert (G03 : grows st s3).
    { eapply grows_trans; [exact Ga|]. eapply grows_trans; [exact G1|].
      eapply grows_trans; [exact G2|exact G3]. }
    assert (Hfirst : d1 = true →
              ∃ y u dest, Fetch y u dest ∈ news st s4 ∧ downloads w u dest).
    { intros ->.
      destruct (extractAndDownloadReports_true _ _ _ _ _ _ H4)
        as [?|(y & u & dest & Hin & Hd)]; [done|].
      exists y, u, dest. split; [|done]. by eapply news_later. }
    destruct (bse_next w (symbol c)) as [|e|table].
    + injection Ebody as -> ->. by apply Hfirst.
    + done.
    + assert (G5 : grows s4 st').
      { eapply grows_of; [apply steps_extractAndDownloadReports|exact Ebody]. }
      destruct (extractAndDownloadReports_true _ _ _ _ _ _ Ebody)
        as [Hd1|(y & u & dest & Hin & Hd)].
      * destruct (Hfirst Hd1) as (y & u & dest & Hin & Hd).
        exists y, u, dest. split; [|done].
        eapply news_earlier; [|exact G5|exact Hin].
        by eapply grows_trans.
      * exists y, u, dest. split; [|done].
        eapply news_later; [|exact G5|exact Hin]. by eapply grows_trans.
  - apply bind_Return_inv in Htry as ([] & sc & _ & Hr). by injection Hr.
Qed.

Lemma noHalt_ret {A} (a : A) : noHalt (ret a).
Proof. by intros st c. Qed.

Lemma noHalt_throw {A} e : noHalt (@throw A e).
Proof. by intros st c. Qed.

Lemma noHalt_attempt r : noHalt (attempt r).
Proof. destruct r; [apply noHalt_throw|apply noHalt_ret]. Qed.

Lemma noHalt_expect {A} (r : answer A) : noHalt (expect r).
Proof. destruct r; [apply noHalt_ret|apply noHalt_throw]. Qed.

Lemma noHalt_emit e : noHalt (emit e).
Proof. by intros st c. Qed.

Lemma noHalt_fetch y u dest :
  streamsOpen w dest → noHalt (fetch w y u dest).
Proof.
  intros H. apply noHalt_bind; [apply noHalt_emit|]. intros _.
  by apply noHalt_downloadFileWithSpeed.
Qed.

Lemma noHalt_bseRow c folder row d :
  allStreamsOpen w → noHalt (bseRow w c folder row d).
Proof.
  intros Hs. unfold bseRow. destruct row as [cells|e]; [|apply noHalt_throw].
  destruct cells as [|cell0 [|cell1 more]]; try apply noHalt_ret.
  destruct (before2009 _); [apply noHalt_ret|].
  destruct (anchor cell1) as [u|]; [|apply noHalt_ret].
  destruct (negb _); [apply noHalt_ret|].
  apply noHalt_try_catch.
  - apply noHalt_bind; [apply noHalt_addError|]. intros _.
    apply noHalt_bind; [apply noHalt_fetch, Hs|]. intros _. apply noHalt_ret.
  - intros e. apply noHalt_bind; [apply noHalt_addError|]. intros _.
    apply noHalt_ret.
Qed.

Lemma noHalt_extractAndDownloadReports c folder table d :
  allStreamsOpen w → noHalt (extractAndDownloadReports w c folder table d).
Proof.
  intros Hs. apply noHalt_bind; [apply noHalt_expect|]. intros rows.
  generalize (drop 1 rows). intros l. revert d.
  induction l as [|row rest IH]; intros d; cbn [bseRows]; [apply noHalt_ret|].
  apply noHalt_bind; [by apply noHalt_bseRow|apply IH].
Qed.

Lemma noHalt_scrapeBseReports_body c :
  allStreamsOpen w → noHalt (scrapeBseReports_body w c).
Proof.
  intros Hs. unfold scrapeBseReports_body.
  apply noHalt_bind; [apply noHalt_emit|]. intros _.
  apply noHalt_bind; [apply noHalt_attempt|]. intros _.
  apply noHalt_bind; [apply noHalt_attempt|]. intros _.
  apply noHalt_bind; [by apply noHalt_extractAndDownloadReports|]. intros d1.
  destruct (bse_next w (symbol c));
    [apply noHalt_ret|apply noHalt_throw|
     by apply noHalt_extractAndDownloadReports].
Qed.

Lemma steps_scrapeBseReports_body c : steps (scrapeBseReports_body w c).
Proof. unfold scrapeBseReports_body. steps_auto. Qed.

(** The two ways scrapeBseReports ends when the ledger can record and the
    process goes on. *)
Lemma scrapeBseReports_cases c st :
  accepts st (symbol c) →
  let sa := (addError (symbol c) (name c) (tryingBse c) st).2 in
  match scrapeBseReports_body w c sa with
  | (Return b, sb) => scrapeBseReports w c st = (Return b, sb)
  | (Throw e, sb) =>
      scrapeBseReports w c st =
        (Return false,
         with_event (ConsoleError (bseScrapingFailed c e))
           (with_companyErrors
              (recorded (symbol c) (name c) (bseScrapingFailed c e)) sb))
  | (Halt code, sb) => scrapeBseReports w c st = (Halt code, sb)
  end.
Proof.
  intros Hacc sa. subst sa. unfold scrapeBseReports.
  rewrite (addError_accepted _ _ _ _ Hacc). cbn [snd].
  erewrite bind_run; [|by apply addError_accepted]. unfold try_catch.
  pose proof (steps_scrapeBseReports_body c
    (with_event (ConsoleError (tryingBse c))
       (with_companyErrors (recorded (symbol c) (name c) (tryingBse c)) st)))
    as Hg.
  destruct (scrapeBseReports_body w c _) as [[b|e|code] sb]; [done| |done].
  cbn [snd] in Hg.
  assert (Hacc' : accepts sb (symbol c)).
  { eapply grows_accepts; [exact Hg|]. left.
    cbn [companyErrors with_event with_companyErrors].
    rewrite recorded_lookup_eq. eauto. }
  erewrite bind_run; [reflexivity|]. by apply addError_accepted.
Qed.

(** X11. With a ledger that can record under the symbol and write streams
    that open, the primary attempt never raises to main: it returns true or
    false, and whatever was thrown inside it is in the ledger as a
    BSE scraping failed message. *)
Theorem scrapeBseReports_returns (c : company) (st : state) :
  accepts st (symbol c) → allStreamsOpen w →
  ∃ b st', scrapeBseReports w c st = (Return b, st')
    ∧ ∀ e sb,
        scrapeBseReports_body w c
          (addError (symbol c) (name c) (tryingBse c) st).2 = (Throw e, sb) →
        b = false ∧ has_message st' (symbol c) (bseScrapingFailed c e).
Proof.
  intros Hacc Hs. pose proof (scrapeBseReports_cases c st Hacc) as H.
  cbn zeta in H.
  pose proof (noHalt_scrapeBseReports_body c Hs
                (addError (symbol c) (name c) (tryingBse c) st).2) as Hh.
  destruct (scrapeBseReports_body w c _) as [[b|e|code] sb];
    cbn [fst] in Hh.
  - exists b, sb. split; [done|]. by intros.
  - eexists _, _. split; [exact H|]. intros e' sb' [= <- <-].
    split; [done|]. apply recorded_has.
  - by destruct (Hh code).
Qed.

(** X12. When the search page or the results table of BSE does not come up,
    the primary attempt returns false having printed and recorded its two
    messages, the status line and the failure, with nothing downloaded and
    the disk as it was. *)
Theorem scrapeBseReports_navigation_fails (c : company) (st : state)
    (e : jsstring) :
  accepts st (symbol c) →
  bse_search w (symbol c) = Some e →
  ∃ st', scrapeBseReports w c st = (Return false, st')
    ∧ news st st' = [ConsoleError (tryingBse c); Navigate baseUrl;
                     ConsoleError (bseScrapingFailed c e)]
    ∧ has_message st' (symbol c) (tryingBse c)
    ∧ has_message st' (symbol c) (bseScrapingFailed c e)
    ∧ disk st' = disk st.
Proof.
  intros Hacc Hnav. pose proof (scrapeBseReports_cases c st Hacc) as H.
  cbn zeta in H. rewrite (addError_accepted _ _ _ _ Hacc) in H. cbn [snd] in H.
  unfold scrapeBseReports_body in H at 1.
  rewrite Hnav in H. cbn in H.
  eexists. split; [exact H|]. split; [|split; [|split]].
  - apply news_app. cbn [console with_event with_companyErrors].
    by rewrite <- !app_assoc.
  - exists (Info
      (match companyErrors st !! symbol c with
       | Some i => info_name i | None => name c end)
      ((match companyErrors st !! symbol c with
        | Some i => errors i | None => [] end)
       ++ [tryingBse c; bseScrapingFailed c e])).
    cbn [companyErrors with_event with_companyErrors errors].
    rewrite recorded_lookup_eq, recorded_lookup_eq.
    destruct (companyErrors st !! symbol c) as [i|]; cbn [info_name errors].
    + rewrite <- app_assoc. split; [done|].
      apply elem_of_app. right. apply list_elem_of_here.
    + split; [done|]. apply list_elem_of_here.
  - apply recorded_has.
  - done.
Qed.

(** X13. When the link to the second results page is there but the page does
    not load, the primary attempt returns false, also if reports of the first
    page were downloaded before: the fallback is then tried although the
    primary source delivered. *)
Theorem scrapeBseReports_second_page_fails (c : company) (st : state)
    (e : jsstring) :
  accepts st (symbol c) → allStreamsOpen w →
  bse_next w (symbol c) = NextPageFails e →
  ∃ st' e', scrapeBseReports w c st = (Return false, st')
    ∧ has_message st' (symbol c) (bseScrapingFailed c e').
Proof.
  intros Hacc Hs Hnext. pose proof (scrapeBseReports_cases c st Hacc) as H.
  cbn zeta in H.
  pose proof (noHalt_scrapeBseReports_body c Hs
                (addError (symbol c) (name c) (tryingBse c) st).2) as Hh.
  destruct (scrapeBseReports_body w c _) as [[b|e'|code] sb] eqn:Ebody;
    cbn [fst] in Hh.
  - unfold scrapeBseReports_body in Ebody. rewrite Hnext in Ebody.
    apply bind_Return_inv in Ebody as ([] & s1 & _ & Ebody).
    apply bind_Return_inv in Ebody as ([] & s2 & _ & Ebody).
    apply bind_Return_inv in Ebody as ([] & s3 & _ & Ebody).
    by apply bind_Return_inv in Ebody as (d1 & s4 & _ & Ebody).
  - eexists _, e'. split; [exact H|]. apply recorded_has.
  - by destruct (Hh code).
Qed.

End Primary.

(** The four theorems on the primary attempt at concrete worlds. *)

Lemma scrapeBseReports_true_witness :
  ∃ st', scrapeBseReports primaryWorld tcs (boot ∅) = (Return true, st')
    ∧ ∃ y u dest, Fetch y u dest ∈ news (boot ∅) st'
                  ∧ downloads primaryWorld u dest.
Proof.
  eexists. split; [vm_compute; reflexivity|].
  eapply (scrapeBseReports_true primaryWorld tcs (boot ∅)).
  vm_compute. reflexivity.
Defined.

Lemma scrapeBseReports_returns_witness :
  accepts (boot ∅) (symbol tcs) ∧ allStreamsOpen bleak
  ∧ ∃ b st', scrapeBseReports bleak tcs (boot ∅) = (Return b, st').
Proof.
  assert (Hacc : accepts (boot ∅) (symbol tcs)) by (right; reflexivity).
  assert (Hs : allStreamsOpen bleak) by (intros p; split; reflexivity).
  split; [exact Hacc|]. split; [exact Hs|].
  destruct (scrapeBseReports_returns bleak tcs (boot ∅) Hacc Hs)
    as (b & st' & Hrun & _).
  by exists b, st'.
Defined.

Lemma scrapeBseReports_navigation_fails_witness :
  ∃ e st', bse_search bleak (symbol tcs) = Some e
    ∧ scrapeBseReports bleak tcs (boot ∅) = (Return false, st')
    ∧ has_message st' (symbol tcs) (bseScrapingFailed tcs e)
    ∧ disk st' = ∅.
Proof.
  assert (Hacc : accepts (boot ∅) (symbol tcs)) by (right; reflexivity).
  destruct (scrapeBseReports_navigation_fails bleak tcs (boot ∅) _ Hacc eq_refl)
    as (st' & Hrun & _ & _ & Hmsg & Hdisk).
  eexists _, st'. split; [reflexivity|]. by repeat split.
Defined.

Lemma scrapeBseReports_second_page_fails_witness :
  ∃ st' e', scrapeBseReports brokenPager tcs (boot ∅) = (Return false, st')
    ∧ has_message st' (symbol tcs) (bseScrapingFailed tcs e')
    ∧ ∃ y u dest, Fetch y u dest ∈ console st'.
Proof.
  assert (Hacc : accepts (boot ∅) (symbol tcs)) by (right; reflexivity).
  assert (Hs : allStreamsOpen brokenPager) by (intros p; split; reflexivity).
  destruct (scrapeBseReports_second_page_fails brokenPager tcs (boot ∅) _
              Hacc Hs eq_refl) as (st' & e' & Hrun & Hmsg).
  exists st', e'. split; [exact Hrun|]. split; [exact Hmsg|].
  assert (Hst : st' = (scrapeBseReports brokenPager tcs (boot ∅)).2)
    by (by rewrite Hrun).
  subst st'. eexists _, _, _.
  match goal with
  | |- _ ∈ ?c => let v := eval vm_compute in c in change c with v
  end.
  repeat first [apply list_elem_of_here | apply list_elem_of_further].
Defined.

(** ** File names keep their extension *)

Section Extensions.

Lemma trimStart_app t y :
  t ≠ [] → clean_head t → JS.trimStart (y ++ t) = JS.trimStart y ++ t.
Proof.
  intros Ht Hc. induction y as [|c y IH]; cbn [app JS.trimStart].
  - by apply trimStart_of_clean.
  - by destruct (JS.isWhiteSpace c).
Qed.

Lemma trimEnd_app t y :
  t ≠ [] → clean_head (rev t) → JS.trimEnd (y ++ t) = y ++ t.
Proof.
  intros Ht Hc. unfold JS.trimEnd. rewrite rev_app_distr.
  rewrite trimStart_of_clean.
  - by rewrite <- rev_app_distr, rev_involutive.
  - destruct (rev t) as [|c t'] eqn:E; [|done].
    apply (f_equal (@rev N)) in E. rewrite rev_involutive in E. done.
Qed.

Lemma stripUnsafe_app x t :
  Forall safeUnit t → stripUnsafe (x ++ t) = stripUnsafe x ++ t.
Proof.
  intros Ht. unfold stripUnsafe. rewrite List.filter_app. f_equal.
  by apply stripUnsafe_id.
Qed.

Lemma sanitize_app x t :
  t ≠ [] → Forall safeUnit t → clean_head t → clean_head (rev t) →
  sanitize (x ++ t) = JS.trimStart (stripUnsafe x) ++ t.
Proof.
  intros Ht Hsafe Hhead Hlast. unfold sanitize, JS.trim.
  rewrite stripUnsafe_app by done.
  rewrite trimStart_app by done. by apply trimEnd_app.
Qed.

(** X14. Sanitizing a name never touches an extension made of safe units
    without white space at its ends: the result is the sanitized
    stem, trimmed at its start only, followed by the extension as it was. *)
Theorem sanitize_keeps_extension (x t : jsstring) :
  t ≠ [] → Forall safeUnit t → clean_head t → clean_head (rev t) →
  sanitize (x ++ t) = JS.trimStart (stripUnsafe x) ++ t
  ∧ JS.endsWith t (sanitize (x ++ t)) = true.
Proof.
  intros Ht Hsafe Hhead Hlast. rewrite sanitize_app by done.
  split; [done|]. unfold JS.endsWith. rewrite rev_app_distr.
  generalize (rev t) (rev (JS.trimStart (stripUnsafe x))).
  intros a b. induction a as [|c a IH]; cbn [app JS.startsWith]; [done|].
  by rewrite N.eqb_refl, IH.
Qed.

End Extensions.

(** ** The fallback attempt, report by report *)

Section FallbackReports.

Context (w : World).

Lemma try_catch_returns {A} (m : M A) h st (a : A) st1 :
  m st = (Return a, st1) → try_catch m h st = (Return a, st1).
Proof. intros H. unfold try_catch. by rewrite H. Qed.

Lemma try_catch_throws {A} (m : M A) h st e st1 :
  m st = (Throw e, st1) → try_catch m h st = h e st1.
Proof. intros H. unfold try_catch. by rewrite H. Qed.

Lemma renameSync_run p q f st :
  io_fault w (OpRename p q) = None → disk st !! p = Some f →
  renameSync w p q st
  = (Return tt, with_disk (fun d => <[q := f]> (delete p d)) st).
Proof. intros H Hf. unfold renameSync, bind. rewrite H. simpl. by rewrite Hf. Qed.

Lemma fetch_run y u dest body st :
  streamsOpen w dest → https_get w u = Responds 200 body None →
  ∃ st', fetch w y u dest st = (Return tt, st')
    ∧ disk st' = <[dest := File body false]> (disk st)
    ∧ companyErrors st' = companyErrors st
    ∧ console st'
      = console st
          ++ Fetch y u dest
             :: List.map (fun speed => Stdout (speedLine speed)) (speed_ticks w u)
             ++ [Stdout downloadComplete].
Proof.
  intros Hs Hget. unfold fetch.
  destruct (downloadFileWithSpeed_resolves w u dest
              (with_event (Fetch y u dest) st)) as [Hfwd Hback].
  destruct (Hback Hs body Hget) as (st' & Hrun).
  destruct (Hfwd st' Hrun) as (_ & body' & Hget' & Hd & Hce & _ & Hc).
  rewrite Hget in Hget'. injection Hget' as <-.
  exists st'. split; [|split; [done|split; [done|]]].
  - erewrite bind_run; [|reflexivity]. exact Hrun.
  - rewrite Hc. cbn [console with_event]. by rewrite <- app_assoc.
Qed.

Lemma extension_clean t :
  js "." ++ extension t ≠ []
  ∧ Forall safeUnit (js "." ++ extension t)
  ∧ clean_head (js "." ++ extension t)
  ∧ clean_head (rev (js "." ++ extension t)).
Proof.
  destruct t; (split; [done|]); (split; [|split; reflexivity]);
    repeat (constructor; [reflexivity|]); constructor.
Qed.

Lemma nseFilename_eq s r :
  nseFilename s r
  = JS.trimStart (stripUnsafe (s ++ js "_" ++ year r))
      ++ js "." ++ extension (type r).
Proof.
  unfold nseFilename. destruct (extension_clean (type r)) as (H1 & H2 & H3 & H4).
  rewrite <- sanitize_app by done. by rewrite <- !app_assoc.
Qed.

(** The archive and the pdf taken out of it never share a path. *)
Lemma nseDest_zip_not_pdf s r :
  type r = zip →
  pathJoin (nseFolder w s) (s ++ js "_" ++ year r ++ js ".pdf") ≠ nseDest w s r.
Proof.
  intros Ht H. unfold nseDest, pathJoin in H.
  apply app_inv_head, app_inv_head in H.
  rewrite nseFilename_eq, Ht in H.
  apply (f_equal last) in H. rewrite !app_assoc in H.
  rewrite !last_app in H. done.
Qed.

(** X15. A pdf reference that downloads ends at the name built from the raw
    symbol and year: the file is fetched under the sanitized name and, when
    the two names differ, renamed, so the characters that sanitization took
    out are back in the final name.  The file holds the body of the response,
    no other path changes and nothing is recorded. *)
Theorem nseReport_pdf_lands_at_raw_name
    (s : jsstring) (nm : jsval) (r : reportRow) (st : state)
    (body : list Byte.byte) :
  let raw := pathJoin (nseFolder w s) (s ++ js "_" ++ year r ++ js ".pdf") in
  type r = pdf →
  streamsOpen w (nseDest w s r) →
  https_get w (url r) = Responds 200 body None →
  io_fault w (OpRename (nseDest w s r) raw) = None →
  ∃ st', nseReport w s nm (nseFolder w s) r st = (Return tt, st')
    ∧ disk st' !! raw = Some (File body false)
    ∧ (nseDest w s r ≠ raw → disk st' !! nseDest w s r = None)
    ∧ (∀ p, p ≠ raw → p ≠ nseDest w s r → disk st' !! p = disk st !! p)
    ∧ companyErrors st' = companyErrors st.
Proof.
  intros raw Ht Hs Hget Hren.
  destruct (fetch_run (year r) (url r) (nseDest w s r) body
              (with_event (ConsoleLog (downloadingNse (nseFilename s r))) st)
              Hs Hget) as (s1 & Hf & Hd & Hce & Hc).
  unfold nseReport.
  change (pathJoin (nseFolder w s) (nseFilename s r)) with (nseDest w s r).
  change (pathJoin (nseFolder w s) (s ++ js "_" ++ year r ++ js ".pdf"))
    with raw.
  rewrite Ht.
  destruct (JS.eqb (nseFilename s r) (s ++ js "_" ++ year r ++ js ".pdf"))
    eqn:E.
  - apply JS_eqb_eq in E.
    assert (Hsame : nseDest w s r = raw) by (unfold nseDest, raw; by rewrite E).
    exists s1. split; [|split; [|split; [|split]]].
    + apply try_catch_returns.
      erewrite bind_run; [|reflexivity].
      erewrite bind_run; [|exact Hf]. reflexivity.
    + rewrite Hd, Hsame. apply lookup_insert_eq.
    + by intros [].
    + intros p Hp _. rewrite Hd, Hsame. by apply lookup_insert_ne.
    + exact Hce.
  - assert (Hat : disk s1 !! nseDest w s r = Some (File body false))
      by (rewrite Hd; apply lookup_insert_eq).
    eexists. split; [|split; [|split; [|split]]].
    + apply try_catch_returns.
      erewrite bind_run; [|reflexivity].
      erewrite bind_run; [|exact Hf].
      by apply renameSync_run.
    + cbn [disk with_disk]. apply lookup_insert_eq.
    + intros Hne. cbn [disk with_disk].
      rewrite lookup_insert_ne by done. apply lookup_delete_eq.
    + intros p Hp Hq. cbn [disk with_disk].
      rewrite lookup_insert_ne by done. rewrite lookup_delete_ne by done.
      rewrite Hd. by apply lookup_insert_ne.
    + exact Hce.
Qed.

(** X16. A zip reference of at least 1 KiB that downloads and reads as an
    archive is replaced by its pdf: after the turn of the loop the archive is
    gone from the disk and the pdf named by the raw symbol and year holds the
    data of the last pdf entry; when the archive has no pdf entry the archive
    is gone all the same and that path is as before.  Nothing is recorded. *)
Theorem nseReport_zip_becomes_pdf
    (s : jsstring) (nm : jsval) (r : reportRow) (st : state)
    (body : list Byte.byte) (entries : list zipEntry) :
  let out := pathJoin (nseFolder w s) (s ++ js "_" ++ year r ++ js ".pdf") in
  type r = zip →
  https_get w (url r) = Responds 200 body None →
  1024 ≤ N.of_nat (length body) →
  readZip w body = Fine entries →
  Forall extractable entries →
  (∀ op, io_fault w op = None) →
  ∃ st', nseReport w s nm (nseFolder w s) r st = (Return tt, st')
    ∧ disk st' !! nseDest w s r = None
    ∧ match lastPdf entries None with
      | Some b => ∃ f', disk st' !! out = Some f' ∧ data f' = b
      | None => disk st' !! out = disk st !! out
      end
    ∧ (∀ p, p ≠ out → p ≠ nseDest w s r → disk st' !! p = disk st !! p)
    ∧ companyErrors st' = companyErrors st.
Proof.
  intros out Ht Hget Hsize Hzip Hall Hio.
  assert (Hs : streamsOpen w (nseDest w s r)) by (split; apply Hio).
  destruct (fetch_run (year r) (url r) (nseDest w s r) body
              (with_event (ConsoleLog (downloadingNse (nseFilename s r))) st)
              Hs Hget) as (s1 & Hf & Hd & Hce & Hc).
  assert (Hat : disk s1 !! nseDest w s r = Some (File body false))
    by (rewrite Hd; apply lookup_insert_eq).
  pose proof (nseDest_zip_not_pdf s r Ht) as Hne. fold out in Hne.
  destruct (extractZipToPdf_extracts w (nseDest w s r) (nseFolder w s) s
              (year r) s1 (File body false) entries Hat Hsize Hzip Hall Hio
              Hne) as (st' & Hrun & Hgone & Hrest & Hce' & Hlast).
  fold out in Hrest, Hlast.
  exists st'. split; [|split; [done|split; [|split]]].
  - unfold nseReport.
    change (pathJoin (nseFolder w s) (nseFilename s r)) with (nseDest w s r).
    rewrite Ht. apply try_catch_returns.
    erewrite bind_run; [|reflexivity].
    erewrite bind_run; [|exact Hf]. exact Hrun.
  - destruct (lastPdf entries None) as [b|]; [done|].
    destruct Hlast as [-> _]. rewrite Hd. by apply lookup_insert_ne.
  - intros p Hp Hq. rewrite Hrest by done. rewrite Hd.
    by apply lookup_insert_ne.
  - by rewrite Hce'.
Qed.

Lemma noHalt_nseReports s nm rows :
  allStreamsOpen w → noHalt (nseReports w s nm (nseFolder w s) rows).
Proof.
  intros Hs. induction rows as [|r rest IH]; cbn [nseReports].
  - apply noHalt_ret.
  - apply noHalt_bind; [apply noHalt_nseReport, Hs|]. by intros _.
Qed.

Lemma noHalt_pageClose s : noHalt (pageClose w s).
Proof. apply noHalt_attempt. Qed.

Lemma noHalt_scrapeNseAnnualReports_body s nm :
  allStreamsOpen w → noHalt (scrapeNseAnnualReports_body w s nm).
Proof.
  intros Hs. unfold scrapeNseAnnualReports_body.
  apply noHalt_bind; [apply noHalt_emit|]. intros _.
  apply noHalt_bind; [apply noHalt_attempt|]. intros _.
  apply noHalt_bind; [apply noHalt_attempt|]. intros _.
  apply noHalt_bind; [apply noHalt_expect|]. intros rows.
  destruct (reportRowsOf rows) as [|r rest].
  - apply noHalt_bind; [apply noHalt_pageClose|]. intros _. apply noHalt_ret.
  - apply noHalt_bind; [by apply noHalt_nseReports|]. intros _.
    apply noHalt_bind; [apply noHalt_pageClose|]. intros _. apply noHalt_ret.
Qed.

Lemma steps_scrapeNseAnnualReports_body s nm :
  steps (scrapeNseAnnualReports_body w s nm).
Proof.
  unfold scrapeNseAnnualReports_body. steps_auto.
  apply steps_nseReports.
  match goal with H : reportRowsOf _ = _ |- _ => rewrite <- H end.
  apply reportRowsOf_year.
Qed.

(** The screenshot of the handler never raises and never records. *)
Lemma screenshot_run s st :
  ∃ st', try_catch
           (bytes <- expect (nse_screenshot w s) ;;
            writeFileSync w (screenshotPath s) bytes)
           (fun _ => ret tt) st = (Return tt, st')
    ∧ companyErrors st' = companyErrors st
    ∧ console st' = console st
    ∧ match nse_screenshot w s, io_fault w (OpWriteFile (screenshotPath s)) with
      | Fine bytes, None =>
          (∃ f, disk st' !! screenshotPath s = Some f ∧ data f = bytes)
          ∧ ∀ p, p ≠ screenshotPath s → disk st' !! p = disk st !! p
      | _, _ => disk st' = disk st
      end.
Proof.
  destruct (nse_screenshot w s) as [bytes|e] eqn:Eshot.
  - destruct (io_fault w (OpWriteFile (screenshotPath s))) as [e|] eqn:Eio.
    + exists st. split; [|done]. unfold try_catch, bind, writeFileSync.
      rewrite Eio. reflexivity.
    + eexists. split; [|split; [|split]].
      * apply try_catch_returns. erewrite bind_run; [|reflexivity].
        by apply writeFileSync_run.
      * done.
      * done.
      * cbn [disk with_disk]. split.
        -- eexists. by rewrite lookup_insert_eq.
        -- intros p Hp. by apply lookup_insert_ne.
  - exists st. by split.
Qed.

(** The handler of the fallback attempt, as long as the page closes. *)
Lemma scrapeNse_handler s nm e sb :
  accepts sb s → nse_close w s = None →
  ∃ st',
    (addError s nm (nseScrapingFailed s e) ;;
     try_catch
       (bytes <- expect (nse_screenshot w s) ;;
        writeFileSync w (screenshotPath s) bytes)
       (fun _ => ret tt) ;;
     pageClose w s ;;
     ret false) sb = (Return false, st')
    ∧ has_message st' s (nseScrapingFailed s e)
    ∧ console st' = console sb ++ [ConsoleError (nseScrapingFailed s e)]
    ∧ match nse_screenshot w s, io_fault w (OpWriteFile (screenshotPath s)) with
      | Fine bytes, None =>
          (∃ f, disk st' !! screenshotPath s = Some f ∧ data f = bytes)
          ∧ ∀ p, p ≠ screenshotPath s → disk st' !! p = disk sb !! p
      | _, _ => disk st' = disk sb
      end.
Proof.
  intros Hacc Hclose.
  destruct (screenshot_run s
              (with_event (ConsoleError (nseScrapingFailed s e))
                 (with_companyErrors (recorded s nm (nseScrapingFailed s e)) sb)))
    as (st' & Hshot & Hce & Hc & Hd).
  exists st'. split; [|split; [|split]].
  - erewrite bind_run; [|by apply addError_accepted].
    erewrite bind_run; [|exact Hshot].
    rewrite pageClose_then. by rewrite Hclose.
  - unfold has_message. rewrite Hce. apply recorded_has.
  - by rewrite Hc.
  - exact Hd.
Qed.

(** X17. When the NSE page opens but the quote page or its annual-reports
    panel does not come up, the fallback attempt returns false with its
    failure recorded and printed; the debug screenshot is on disk when it
    could be taken and written, and a screenshot that fails changes nothing:
    its error is swallowed. *)
Theorem scrapeNse_navigation_fails (s : jsstring) (nm : jsval) (st : state)
    (e : jsstring) :
  accepts st s →
  nse_newPage w s = None → nse_panel w s = Some e → nse_close w s = None →
  ∃ st', scrapeNseAnnualReports w s nm st = (Return false, st')
    ∧ has_message st' s (nseScrapingFailed s e)
    ∧ news st st' = [Navigate (nseUrl s); ConsoleError (nseScrapingFailed s e)]
    ∧ match nse_screenshot w s, io_fault w (OpWriteFile (screenshotPath s)) with
      | Fine bytes, None =>
          (∃ f, disk st' !! screenshotPath s = Some f ∧ data f = bytes)
          ∧ ∀ p, p ≠ screenshotPath s → disk st' !! p = disk st !! p
      | _, _ => disk st' = disk st
      end.
Proof.
  intros Hacc Hnew Hpanel Hclose.
  destruct (scrapeNse_handler s nm e (with_event (Navigate (nseUrl s)) st)
              Hacc Hclose) as (st' & Hrun & Hmsg & Hc & Hd).
  exists st'. split; [|split; [done|split; [|done]]].
  - unfold scrapeNseAnnualReports. rewrite Hnew.
    erewrite bind_run; [|reflexivity].
    erewrite try_catch_throws; [exact Hrun|].
    unfold scrapeNseAnnualReports_body. rewrite Hpanel.
    erewrite bind_run; [|reflexivity]. by apply bind_throws.
  - apply news_app. rewrite Hc. cbn [console with_event].
    by rewrite <- app_assoc.
Qed.

(** X18. With a ledger that can record under the symbol, write streams that
    open and a page that opens and closes, the fallback attempt never raises
    to main: it returns true or false, and whatever was thrown inside its try
    block is in the ledger as an NSE scraping failed message. *)
Theorem scrapeNseAnnualReports_returns (s : jsstring) (nm : jsval)
    (st : state) :
  accepts st s → allStreamsOpen w →
  nse_newPage w s = None → nse_close w s = None →
  ∃ b st', scrapeNseAnnualReports w s nm st = (Return b, st')
    ∧ accepts st' s
    ∧ ∀ e sb, scrapeNseAnnualReports_body w s nm st = (Throw e, sb) →
        b = false ∧ has_message st' s (nseScrapingFailed s e).
Proof.
  intros Hacc Hs Hnew Hclose.
  pose proof (noHalt_scrapeNseAnnualReports_body s nm Hs st) as Hh.
  pose proof (steps_scrapeNseAnnualReports_body s nm st) as Hg.
  assert (Hrun : scrapeNseAnnualReports w s nm st
                 = try_catch (scrapeNseAnnualReports_body w s nm)
                     (fun err =>
                        addError s nm (nseScrapingFailed s err) ;;
                        try_catch
                          (bytes <- expect (nse_screenshot w s) ;;
                           writeFileSync w (screenshotPath s) bytes)
                          (fun _ => ret tt) ;;
                        pageClose w s ;;
                        ret false) st).
  { unfold scrapeNseAnnualReports. rewrite Hnew.
    erewrite bind_run; [|reflexivity]. reflexivity. }
  destruct (scrapeNseAnnualReports_body w s nm st) as [[b|e|code] sb] eqn:Ebody;
    cbn [fst snd] in Hh, Hg.
  - exists b, sb. split; [|split; [|done]].
    + rewrite Hrun. by apply try_catch_returns.
    + by eapply grows_accepts.
  - assert (Hacc' : accepts sb s) by (by eapply grows_accepts).
    destruct (scrapeNse_handler s nm e sb Hacc' Hclose)
      as (st' & Hhandler & Hmsg & _).
    exists false, st'. split; [|split].
    + rewrite Hrun. erewrite try_catch_throws; [exact Hhandler|done].
    + destruct Hmsg as (i & Hi & _). left. eauto.
    + by intros e' sb' [= <- <-].
  - by destruct (Hh code).
Qed.

(** X19. When browser.newPage fails for the fallback, which the source calls
    before its try block, the failure is not an NSE scraping failed message:
    it reaches the catch of main, which records Error processing under the
    symbol and goes on.  That message is the only thing printed after the
    primary attempt, so the closing No reports found message is not added,
    and the disk is as the primary attempt left it. *)
Theorem newPage_failure_recorded_by_main (c : company) (st st1 : state)
    (e : jsstring) :
  scrapeBseReports w c st = (Return false, st1) →
  nse_newPage w (symbol c) = Some e →
  ∃ st2, processCompany w c st = (Return tt, st2)
    ∧ has_message st2 (symbol c) (errorProcessing (symbol c) e)
    ∧ news st1 st2 = [ConsoleError (errorProcessing (symbol c) e)]
    ∧ disk st2 = disk st1.
Proof.
  intros Hbse Hnew.
  assert (Hacc1 : accepts st1 (symbol c)).
  { left. by eapply scrapeBseReports_leaves_entry. }
  assert (Hbody : processCompany_body w c st = (Throw e, st1)).
  { unfold processCompany_body. erewrite bind_run; [|exact Hbse]. cbv iota.
    apply bind_throws. unfold scrapeNseAnnualReports. rewrite Hnew.
    by apply bind_throws. }
  eexists. split; [|split; [|split]].
  - unfold processCompany. erewrite try_catch_throws; [|exact Hbody].
    by apply addError_accepted.
  - apply recorded_has.
  - by apply news_app.
  - done.
Qed.

End FallbackReports.

(** ** Start-up *)

Section Startup.

Context (w : World).

Lemma findKey_none lit keys :
  (∀ k, k ∈ keys → JS.toLowerCase k ≠ lit) → findKey lit keys = None.
Proof.
  unfold findKey. induction keys as [|k keys IH]; intros H; cbn [find]; [done|].
  rewrite (proj2 (JS_eqb_neq _ _) (H k (list_elem_of_here _ _))).
  apply IH. intros k' Hk'. apply H. by apply list_elem_of_further.
Qed.

(** X20. Only the first row of the worksheet is searched for the symbol
    column.  When the worksheet has no rows, or no key of its first row is
    symbol in some letter case, the run prints one error and the process
    exits with code 1 right there: no company is processed, also when later
    rows do carry a symbol, no failure report is written and nothing else is
    printed. *)
Theorem run_exits_at_startup (data : list sheetRow) (st : state) :
  launch w = None → readFile w = Fine data →
  (∀ first rest k, data = first :: rest → k ∈ List.map fst first →
     JS.toLowerCase k ≠ js "symbol") →
  run w st
  = (Halt 1,
     with_event
       (ConsoleError
          match data with
          | [] => js "Excel sheet is empty"
          | _ :: _ => js "No 'symbol' column found in Excel sheet."
          end) st).
Proof.
  intros Hlaunch Hread Hkeys.
  unfold run, try_catch, main, acquire. rewrite Hlaunch, Hread.
  erewrite bind_halts; [reflexivity|].
  erewrite bind_run; [|reflexivity].
  erewrite bind_run; [|reflexivity].
  destruct data as [|first rest]; [reflexivity|].
  cbn [symbolKeyOf]. rewrite findKey_none; [reflexivity|].
  intros k Hk. by eapply Hkeys.
Qed.

End Startup.

(** The theorems on file names, the fallback attempt and start-up at concrete
    inputs. *)

Lemma sanitize_keeps_extension_witness :
  sanitize (js " TCS_2012/13" ++ js ".pdf")
  = JS.trimStart (stripUnsafe (js " TCS_2012/13")) ++ js ".pdf"
  ∧ JS.endsWith (js ".pdf") (sanitize (js " TCS_2012/13" ++ js ".pdf")) = true.
Proof.
  apply (sanitize_keeps_extension (js " TCS_2012/13") (js ".pdf")).
  - vm_compute. discriminate.
  - repeat (constructor; [reflexivity|]). constructor.
  - reflexivity.
  - reflexivity.
Defined.

Lemma nseReport_pdf_lands_at_raw_name_witness :
  let w := withNse [] served in
  let raw := pathJoin (nseFolder w (js "TCS")) (js "TCS_2012/13.pdf") in
  ∃ st', nseReport w (js "TCS") (Str []) (nseFolder w (js "TCS")) pdf2012
           (boot ∅) = (Return tt, st')
    ∧ disk st' !! raw = Some (File (repeat Byte.x25 16) false)
    ∧ disk st' !! nseDest w (js "TCS") pdf2012 = None.
Proof.
  intros w raw.
  destruct (nseReport_pdf_lands_at_raw_name w (js "TCS") (Str []) pdf2012
              (boot ∅) (repeat Byte.x25 16))
    as (st' & Hrun & Hraw & Hgone & _ & _).
  - reflexivity.
  - split; reflexivity.
  - reflexivity.
  - reflexivity.
  - exists st'. split; [exact Hrun|]. split; [exact Hraw|].
    apply Hgone. intros H. vm_compute in H. discriminate.
Defined.

Lemma nseReport_zip_becomes_pdf_witness :
  let out := pathJoin (nseFolder zipWorld (js "TCS")) (js "TCS_2012.pdf") in
  ∃ st', nseReport zipWorld (js "TCS") (Str []) (nseFolder zipWorld (js "TCS"))
           zip2012 (boot ∅) = (Return tt, st')
    ∧ disk st' !! nseDest zipWorld (js "TCS") zip2012 = None
    ∧ ∃ f', disk st' !! out = Some f' ∧ data f' = [Byte.x03].
Proof.
  intros out.
  destruct (nseReport_zip_becomes_pdf zipWorld (js "TCS") (Str []) zip2012
              (boot ∅) (repeat Byte.x50 2048) sampleEntries)
    as (st' & Hrun & Hgone & Hlast & _).
  - reflexivity.
  - reflexivity.
  - vm_compute. discriminate.
  - reflexivity.
  - repeat constructor; intros _; by eexists.
  - reflexivity.
  - exists st'. split; [exact Hrun|]. split; [exact Hgone|]. exact Hlast.
Defined.

Lemma scrapeNse_navigation_fails_witness :
  ∃ e st', nse_panel bleak (js "TCS") = Some e
    ∧ scrapeNseAnnualReports bleak (js "TCS") (Str []) (boot ∅)
      = (Return false, st')
    ∧ has_message st' (js "TCS") (nseScrapingFailed (js "TCS") e)
    ∧ disk st' = ∅.
Proof.
  assert (Hacc : accepts (boot ∅) (js "TCS")) by (right; reflexivity).
  destruct (scrapeNse_navigation_fails bleak (js "TCS") (Str []) (boot ∅) _
              Hacc eq_refl eq_refl eq_refl) as (st' & Hrun & Hmsg & _ & Hd).
  eexists _, st'. split; [reflexivity|]. by repeat split.
Defined.

Lemma scrapeNseAnnualReports_returns_witness :
  ∃ st', scrapeNseAnnualReports (withNse [row2012] served) (js "TCS") (Str [])
           (boot ∅) = (Return true, st')
    ∧ accepts st' (js "TCS").
Proof.
  assert (Hacc : accepts (boot ∅) (js "TCS")) by (right; reflexivity).
  assert (Hs : allStreamsOpen (withNse [row2012] served))
    by (intros p; split; reflexivity).
  destruct (scrapeNseAnnualReports_returns (withNse [row2012] served)
              (js "TCS") (Str []) (boot ∅) Hacc Hs eq_refl eq_refl)
    as (b & st' & Hrun & Hacc' & _).
  exists st'. split; [|exact Hacc'].
  rewrite Hrun. f_equal. f_equal.
  assert (Hb : (scrapeNseAnnualReports (withNse [row2012] served) (js "TCS")
                  (Str []) (boot ∅)).1 = Return b) by (by rewrite Hrun).
  vm_compute in Hb. by injection Hb.
Defined.

Lemma newPage_failure_recorded_by_main_witness :
  ∃ e st2, nse_newPage noNewPage (symbol tcs) = Some e
    ∧ processCompany noNewPage tcs (boot ∅) = (Return tt, st2)
    ∧ has_message st2 (symbol tcs) (errorProcessing (symbol tcs) e).
Proof.
  assert (Hacc : accepts (boot ∅) (symbol tcs)) by (right; reflexivity).
  assert (Hbse : scrapeBseReports noNewPage tcs (boot ∅)
                 = (Return false, (scrapeBseReports noNewPage tcs (boot ∅)).2)).
  { assert (H1 : (scrapeBseReports noNewPage tcs (boot ∅)).1 = Return false)
      by (vm_compute; reflexivity).
    destruct (scrapeBseReports noNewPage tcs (boot ∅)) as [o s1].
    cbn [fst snd] in *. by rewrite H1. }
  destruct (newPage_failure_recorded_by_main noNewPage tcs (boot ∅) _ _
              Hbse eq_refl) as (st2 & Hrun & Hmsg & _).
  eexists _, st2. split; [reflexivity|]. by split.
Defined.

Lemma run_exits_at_startup_witness :
  run (withSheet gapFirst) (boot ∅)
  = (Halt 1,
     with_event (ConsoleError (js "No 'symbol' column found in Excel sheet."))
       (boot ∅)).
Proof.
  apply (run_exits_at_startup (withSheet gapFirst) gapFirst (boot ∅)).
  - reflexivity.
  - reflexivity.
  - intros first rest k [= <- <-] Hk. cbn [List.map fst] in Hk.
    apply list_elem_of_singleton in Hk as ->. vm_compute. discriminate.
Defined.
